(** * use-eventer: a shallow embedding of the [useEventer] React hook

    The hook binds one handler to a matrix of (element, event type) pairs and
    hands the host runtime a cleanup closure.  The development embeds

    - [src/index.ts] as [TS.useEventer] (elements resolved once, at setup),
    - [src/index.js] as [JS.useEventer] (the same, without the early return),
    - the [useListener] variant as [Variant.useListener] (refs read again at
      every use, also at cleanup),

    over a small model of the host: ref cells, the listener lists of the DOM,
    abort signals and the caller's callback factory.  Every call the hook makes
    on the host is recorded in a trace, so that statements about "how many
    registrations" and "in which order" are statements about lists. *)

From Stdlib Require Import String List Bool Arith Lia.
Import ListNotations.

Set Implicit Arguments.

(** ** Host values *)

(** Identities of host objects.  Two JavaScript objects are the same object
    exactly when their identities are equal. *)
Definition Node := nat.          (* an HTMLElement *)
Definition RefObject := nat.     (* a React ref cell [{ current }] *)
Definition Handler := nat.       (* a function value [(event?) => void] *)
Definition AbortSignal := nat.   (* [controller.signal] *)

(** An optional member of an options bag whose presence matters: the key
    can be missing, or be there holding [undefined], or hold a value. *)
Inductive Member (A : Type) : Type :=
| Missing
| Undef
| Holds (a : A).

Arguments Missing {A}.
Arguments Undef {A}.

(** [AddEventListenerOptions]: every member is optional.  For [capture],
    [once] and [passive] a missing key and [undefined] are read alike by
    everything that reads them, so [None] stands for both; for [signal] the
    two differ under object spread, and the member keeps them apart. *)
Record AddEventListenerOptions := mkListenerOptions {
  capture : option bool;
  once : option bool;
  passive : option bool;
  signal : Member AbortSignal
}.

(** The value of [o.signal] when it is an abort signal: what a truthiness
    test sees and what the host takes as the listener's signal. *)
Definition signal_value (o : AddEventListenerOptions) : option AbortSignal :=
  match signal o with
  | Holds s => Some s
  | _ => None
  end.

(** The literal [{}]. *)
Definition empty_listener_options : AddEventListenerOptions :=
  mkListenerOptions None None None Missing.

(** [HookOptions]: every member is optional. *)
Record HookOptions := mkHookOptions {
  oneToOne : option bool;
  callHandlerOnce : option bool;
  callHandlerOnEach : option bool;
  listenerOptions : option AddEventListenerOptions
}.

(** [RefObject<T> | RefObject<T>[]] and [string | string[]]. *)
Inductive OneOrMany (A : Type) : Type :=
| One (a : A)
| Many (xs : list A).

(** [Array.isArray(x) ? x : [x]] *)
Definition toArray {A : Type} (x : OneOrMany A) : list A :=
  match x with
  | One a => [a]
  | Many xs => xs
  end.

(** Destructuring default [{ k = d } = options]. *)
Definition with_default {A : Type} (d : A) (o : option A) : A :=
  match o with
  | Some a => a
  | None => d
  end.

(** Truthiness of an optional object-valued member. *)
Definition truthy {A : Type} (o : option A) : bool :=
  match o with
  | Some _ => true
  | None => false
  end.

(** [new Error(message)] *)
Inductive JsError := Error (message : string).

(** ** The listener store of the host *)

(** One entry of an element's event listener list. *)
Record Listener := mkListener {
  l_target : Node;
  l_type : string;
  l_callback : Handler;
  l_capture : bool;
  l_once : bool;
  l_passive : bool;
  l_signal : option AbortSignal
}.

Record World := mkWorld {
  current : RefObject -> option Node;   (* contents of the ref cells *)
  listeners : list Listener;            (* all listener lists, oldest first *)
  aborted : list AbortSignal;           (* signals that have been aborted *)
  next_signal : AbortSignal;            (* next fresh [AbortController] *)
  factory_calls : nat                   (* how often [callback] has run *)
}.

Definition set_listeners (ls : list Listener) (w : World) : World :=
  mkWorld (current w) ls (aborted w) (next_signal w) (factory_calls w).

Definition set_current (c : RefObject -> option Node) (w : World) : World :=
  mkWorld c (listeners w) (aborted w) (next_signal w) (factory_calls w).

(** Listeners are identified by target, type, callback and capture flag. *)
Definition same_listener (n : Node) (evt : string) (h : Handler) (cap : bool)
           (l : Listener) : bool :=
  Nat.eqb (l_target l) n && String.eqb (l_type l) evt
  && Nat.eqb (l_callback l) h && Bool.eqb (l_capture l) cap.

Definition has_signal (s : AbortSignal) (l : Listener) : bool :=
  match l_signal l with
  | Some s' => Nat.eqb s' s
  | None => false
  end.

Definition is_aborted (w : World) (o : option AbortSignal) : bool :=
  match o with
  | Some s => existsb (Nat.eqb s) (aborted w)
  | None => false
  end.

(** [node.addEventListener(evt, h, o)]: nothing happens when the signal is
    already aborted or an identical listener is present. *)
Definition dom_add (n : Node) (evt : string) (h : Handler)
           (o : AddEventListenerOptions) (w : World) : World :=
  let cap := with_default false (capture o) in
  if is_aborted w (signal_value o) then w
  else if existsb (same_listener n evt h cap) (listeners w) then w
  else set_listeners
         (listeners w ++
          [mkListener n evt h cap (with_default false (once o))
                      (with_default false (passive o)) (signal_value o)]) w.

(** [node.removeEventListener(evt, h)]: no options, hence capture [false]. *)
Definition dom_remove (n : Node) (evt : string) (h : Handler) (w : World)
  : World :=
  set_listeners
    (filter (fun l => negb (same_listener n evt h false l)) (listeners w)) w.

(** [controller.abort()]: every listener registered with the signal goes. *)
Definition dom_abort (s : AbortSignal) (w : World) : World :=
  mkWorld (current w)
          (filter (fun l => negb (has_signal s l)) (listeners w))
          (s :: aborted w) (next_signal w) (factory_calls w).

(** Handlers run when an event of type [evt] is dispatched at [n]. *)
Definition dispatch (n : Node) (evt : string) (w : World) : list Handler :=
  map l_callback
      (filter (fun l => Nat.eqb (l_target l) n && String.eqb (l_type l) evt)
              (listeners w)).

(** ** Calls on the host and their trace *)

Inductive Call :=
| CallFactory                                     (* [callback()] *)
| CallHandler (h : Handler) (arg : option string) (* [handler(event?)] *)
| NewAbortController (s : AbortSignal)
| AddListener (n : Node) (evt : string) (h : Handler)
              (o : AddEventListenerOptions)
| RemoveListener (n : Node) (evt : string) (h : Handler)
| Abort (s : AbortSignal).

(** The effect of one call on the world.  [callback()] and [handler()] run
    the caller's code, of which the model keeps the call alone: it is taken
    to leave the refs, the listener lists and the signals as they are.
    Where the builds differ in when they read a ref relative to a call of
    the handler, no statement below compares them. *)
Definition apply_call (c : Call) (w : World) : World :=
  match c with
  | CallFactory =>
      mkWorld (current w) (listeners w) (aborted w) (next_signal w)
              (S (factory_calls w))
  | CallHandler _ _ => w
  | NewAbortController _ =>
      mkWorld (current w) (listeners w) (aborted w) (S (next_signal w))
              (factory_calls w)
  | AddListener n evt h o => dom_add n evt h o w
  | RemoveListener n evt h => dom_remove n evt h w
  | Abort s => dom_abort s w
  end.

Definition apply_calls (t : list Call) (w : World) : World :=
  fold_left (fun w c => apply_call c w) t w.

(** ** The monad of hook code: state, trace and exceptions

    A thrown error does not undo what ran before it, so a computation always
    returns the world it reached and the calls it made. *)

Inductive Completion (A : Type) : Type :=
| Normal (a : A)
| Throw (e : JsError).

Arguments Throw {A} e.

Definition M (A : Type) : Type := World -> Completion A * World * list Call.

Definition ret {A : Type} (a : A) : M A := fun w => (Normal a, w, []).

Definition bind {A B : Type} (m : M A) (k : A -> M B) : M B :=
  fun w =>
    match m w with
    | (Normal a, w1, t1) =>
        match k a w1 with
        | (r, w2, t2) => (r, w2, t1 ++ t2)
        end
    | (Throw e, w1, t1) => (Throw e, w1, t1)
    end.

Definition throw {A : Type} (e : JsError) : M A := fun w => (Throw e, w, []).

Declare Scope hook_scope.
Delimit Scope hook_scope with hook.
Notation "x <- m ;; k" := (bind m (fun x => k))
  (at level 61, m at next level, right associativity) : hook_scope.
Notation "m ;; k" := (bind m (fun _ => k))
  (at level 61, right associativity) : hook_scope.
Open Scope hook_scope.

(** A host call: record it and apply its effect. *)
Definition emit (c : Call) : M unit := fun w => (Normal tt, apply_call c w, [c]).

(** [if (b) stmt;] *)
Definition when (b : bool) (m : M unit) : M unit := if b then m else ret tt.

(** [for (let x of xs) body] *)
Fixpoint for_of {A : Type} (xs : list A) (body : A -> M unit) : M unit :=
  match xs with
  | [] => ret tt
  | x :: xs' => body x ;; for_of xs' body
  end.

(** [for (let i = 0; i < n; i++) body] *)
Definition for_range (n : nat) (body : nat -> M unit) : M unit :=
  for_of (seq 0 n) body.

(** [xs.map(f)] with an effectful [f]. *)
Fixpoint array_map {A B : Type} (f : A -> M B) (xs : list A) : M (list B) :=
  match xs with
  | [] => ret []
  | x :: xs' => y <- f x ;; ys <- array_map f xs' ;; ret (y :: ys)
  end.

(** [o?.method(...)]: skipped when the receiver is null or undefined. *)
Definition optional_call {A : Type} (o : option A) (method : A -> M unit)
  : M unit :=
  match o with
  | Some a => method a
  | None => ret tt
  end.

(** *** Host primitives *)

(** [rf.current] *)
Definition get_current (rf : RefObject) : M (option Node) :=
  fun w => (Normal (current w rf), w, []).

(** [callback()]: the [k]-th call of the factory returns [callback k]. *)
Definition call_factory (callback : nat -> Handler) : M Handler :=
  fun w => (Normal (callback (factory_calls w)), apply_call CallFactory w,
            [CallFactory]).

(** [handler()] *)
Definition call_handler (h : Handler) : M unit := emit (CallHandler h None).

(** [new AbortController()], identified with its signal. *)
Definition new_AbortController : M AbortSignal :=
  fun w => (Normal (next_signal w),
            apply_call (NewAbortController (next_signal w)) w,
            [NewAbortController (next_signal w)]).

Definition addEventListener (n : Node) (evt : string) (h : Handler)
           (o : AddEventListenerOptions) : M unit :=
  emit (AddListener n evt h o).

Definition removeEventListener (n : Node) (evt : string) (h : Handler)
  : M unit :=
  emit (RemoveListener n evt h).

Definition abort (controller : AbortSignal) : M unit := emit (Abort controller).

(** [{ signal: controller.signal, ...listenerOptions }]: every own key of
    [listenerOptions] is copied over the literal, so a [signal] key replaces
    the controller's signal even when it holds [undefined]. *)
Definition merge_options (controller : AbortSignal)
           (o : AddEventListenerOptions) : AddEventListenerOptions :=
  mkListenerOptions (capture o) (once o) (passive o)
    (match signal o with
     | Missing => Holds controller
     | Undef => Undef
     | Holds s => Holds s
     end).

(** [events[i]] as the host receives it: an index past the end yields
    [undefined], which the host converts to the string ["undefined"]. *)
Definition event_at (events : list string) (i : nat) : string :=
  nth i events "undefined"%string.

(** [nodes[i]]: [undefined] past the end, [null] for an empty ref. *)
Definition node_at (nodes : list (option Node)) (i : nat) : option Node :=
  match nth_error nodes i with
  | Some o => o
  | None => None
  end.

(** The cleanup closures handed to the host, and the effect itself. *)
Definition Destructor : Type := M unit.
Definition EffectCallback : Type := M Destructor.

(** [useEffect(effect, dependencies)]: the host keeps the effect and runs it
    when the cycle starts; scheduling by [dependencies] is the host's. *)
Definition useEffect (effect : EffectCallback) (dependencies : list nat)
  : M EffectCallback :=
  ret effect.

Definition mismatch_message : string :=
  "When oneToOne is set to false, the number of refs and events must be equal.".

(** ** [src/index.ts] *)

Module TS.

(** The closure returned at the end of the effect (lines 95-113). *)
Definition cleanup (oneToOne : bool) (listenerOptions : AddEventListenerOptions)
           (controller : AbortSignal) (nodes : list (option Node))
           (events : list string) (handler : Handler) : Destructor :=
  if negb (truthy (signal_value listenerOptions)) then
    abort controller
  else if oneToOne then
    for_range (length nodes) (fun i =>
      optional_call (node_at nodes i) (fun node =>
        removeEventListener node (event_at events i) handler))
  else
    for_of nodes (fun node =>
      for_of events (fun evt =>
        optional_call node (fun node =>
          removeEventListener node evt handler))).

(** The effect passed to [useEffect] (lines 66-115). *)
Definition effect (oneToOne callHandlerOnce callHandlerOnEach : bool)
           (listenerOptions : AddEventListenerOptions)
           (refs : list RefObject) (events : list string)
           (callback : nat -> Handler) : EffectCallback :=
  handler <- call_factory callback ;;
  when callHandlerOnce (call_handler handler) ;;
  controller <- new_AbortController ;;
  nodes <- array_map get_current refs ;;
  if oneToOne then
    for_range (length nodes) (fun i =>
      when callHandlerOnEach (call_handler handler) ;;
      optional_call (node_at nodes i) (fun node =>
        addEventListener node (event_at events i) handler
                         (merge_options controller listenerOptions))) ;;
    ret (abort controller)
  else
    for_of nodes (fun node =>
      for_of events (fun evt =>
        when callHandlerOnEach (call_handler handler) ;;
        optional_call node (fun node =>
          addEventListener node evt handler
                           (merge_options controller listenerOptions)))) ;;
    ret (cleanup oneToOne listenerOptions controller nodes events handler).

Definition useEventer (ref : OneOrMany RefObject) (event : OneOrMany string)
           (callback : nat -> Handler) (dependencies : list nat)
           (options : HookOptions) : M EffectCallback :=
  let oneToOne := with_default false (oneToOne options) in
  let callHandlerOnce := with_default false (callHandlerOnce options) in
  let callHandlerOnEach := with_default false (callHandlerOnEach options) in
  let listenerOptions :=
    with_default empty_listener_options (listenerOptions options) in
  let events := toArray event in
  let refs := toArray ref in
  when (oneToOne && negb (Nat.eqb (length refs) (length events)))
       (throw (Error mismatch_message)) ;;
  useEffect (effect oneToOne callHandlerOnce callHandlerOnEach listenerOptions
                    refs events callback)
            dependencies.

End TS.

(** ** [src/index.js]: the JavaScript build of the same hook *)

Module JS.

(** The closure returned by the effect (lines 82-100). *)
Definition cleanup (oneToOne : bool) (listenerOptions : AddEventListenerOptions)
           (controller : AbortSignal) (nodes : list (option Node))
           (events : list string) (handler : Handler) : Destructor :=
  if negb (truthy (signal_value listenerOptions)) then
    abort controller
  else if oneToOne then
    for_range (length nodes) (fun i =>
      optional_call (node_at nodes i) (fun node =>
        removeEventListener node (event_at events i) handler))
  else
    for_of nodes (fun node =>
      for_of events (fun evt =>
        optional_call node (fun node =>
          removeEventListener node evt handler))).

(** The effect (lines 54-102): both topologies fall through to one cleanup. *)
Definition effect (oneToOne callHandlerOnce callHandlerOnEach : bool)
           (listenerOptions : AddEventListenerOptions)
           (refs : list RefObject) (events : list string)
           (callback : nat -> Handler) : EffectCallback :=
  handler <- call_factory callback ;;
  when callHandlerOnce (call_handler handler) ;;
  controller <- new_AbortController ;;
  nodes <- array_map get_current refs ;;
  (if oneToOne then
     for_range (length nodes) (fun i =>
       when callHandlerOnEach (call_handler handler) ;;
       optional_call (node_at nodes i) (fun node =>
         addEventListener node (event_at events i) handler
                          (merge_options controller listenerOptions)))
   else
     for_of nodes (fun node =>
       for_of events (fun evt =>
         when callHandlerOnEach (call_handler handler) ;;
         optional_call node (fun node =>
           addEventListener node evt handler
                            (merge_options controller listenerOptions))))) ;;
  ret (cleanup oneToOne listenerOptions controller nodes events handler).

Definition useEventer (ref : OneOrMany RefObject) (event : OneOrMany string)
           (callback : nat -> Handler) (dependencies : list nat)
           (options : HookOptions) : M EffectCallback :=
  let oneToOne := with_default false (oneToOne options) in
  let callHandlerOnce := with_default false (callHandlerOnce options) in
  let callHandlerOnEach := with_default false (callHandlerOnEach options) in
  let listenerOptions :=
    with_default empty_listener_options (listenerOptions options) in
  let events := toArray event in
  let refs := toArray ref in
  when (oneToOne && negb (Nat.eqb (length refs) (length events)))
       (throw (Error mismatch_message)) ;;
  useEffect (effect oneToOne callHandlerOnce callHandlerOnEach listenerOptions
                    refs events callback)
            dependencies.

End JS.

(** ** The [useListener] variant: refs are read again at every use *)

Module Variant.

(** [refs[i]?.current] and [rf?.current] *)
Definition optional_current (o : option RefObject) : M (option Node) :=
  match o with
  | Some rf => get_current rf
  | None => ret None
  end.

(** The closure returned at the end of the effect (lines 93-109). *)
Definition cleanup (oneToOne : bool) (listenerOptions : AddEventListenerOptions)
           (controller : AbortSignal) (refs : list RefObject)
           (events : list string) (handler : Handler) : Destructor :=
  if truthy (signal_value listenerOptions) then
    if oneToOne then
      for_range (length refs) (fun i =>
        node <- optional_current (nth_error refs i) ;;
        optional_call node (fun node =>
          removeEventListener node (event_at events i) handler))
    else
      for_of refs (fun rf =>
        for_of events (fun evt =>
          node <- optional_current (Some rf) ;;
          optional_call node (fun node =>
            removeEventListener node evt handler)))
  else
    abort controller.

(** The effect (lines 66-111). *)
Definition effect (oneToOne callHandlerOnce callHandlerOnEach : bool)
           (listenerOptions : AddEventListenerOptions)
           (refs : list RefObject) (events : list string)
           (callback : nat -> Handler) : EffectCallback :=
  handler <- call_factory callback ;;
  when callHandlerOnce (call_handler handler) ;;
  controller <- new_AbortController ;;
  if oneToOne then
    for_range (length refs) (fun i =>
      when callHandlerOnEach (call_handler handler) ;;
      node <- optional_current (nth_error refs i) ;;
      optional_call node (fun node =>
        addEventListener node (event_at events i) handler
                         (merge_options controller listenerOptions))) ;;
    ret (abort controller)
  else
    for_of refs (fun rf =>
      for_of events (fun evt =>
        when callHandlerOnEach (call_handler handler) ;;
        node <- optional_current (Some rf) ;;
        optional_call node (fun node =>
          addEventListener node evt handler
                           (merge_options controller listenerOptions)))) ;;
    ret (cleanup oneToOne listenerOptions controller refs events handler).

Definition useListener (ref : OneOrMany RefObject) (event : OneOrMany string)
           (callback : nat -> Handler) (dependencies : list nat)
           (options : HookOptions) : M EffectCallback :=
  let oneToOne := with_default false (oneToOne options) in
  let callHandlerOnce := with_default false (callHandlerOnce options) in
  let callHandlerOnEach := with_default false (callHandlerOnEach options) in
  let listenerOptions :=
    with_default empty_listener_options (listenerOptions options) in
  let events := toArray event in
  let refs := toArray ref in
  when (oneToOne && negb (Nat.eqb (length refs) (length events)))
       (throw (Error mismatch_message)) ;;
  useEffect (effect oneToOne callHandlerOnce callHandlerOnEach listenerOptions
                    refs events callback)
            dependencies.

End Variant.

(** ** One activation cycle as the host drives it *)

(** Render the hook, then run the effect it registered; the value is the
    cleanup the host will call when the cycle ends. *)
Definition setup (hook : M EffectCallback) : M Destructor :=
  effect <- hook ;; effect.

(** Setup followed at once by cleanup. *)
Definition cycle (hook : M EffectCallback) : M unit :=
  teardown <- setup hook ;; teardown.

(** *** Reading the options as the hook does *)

Definition is_paired (options : HookOptions) : bool :=
  with_default false (oneToOne options).

Definition calls_once (options : HookOptions) : bool :=
  with_default false (callHandlerOnce options).

Definition calls_on_each (options : HookOptions) : bool :=
  with_default false (callHandlerOnEach options).

Definition listener_options (options : HookOptions) : AddEventListenerOptions :=
  with_default empty_listener_options (listenerOptions options).

Definition custom_signal (options : HookOptions) : option AbortSignal :=
  signal_value (listener_options options).

(** *** Reading a trace *)

Definition registration := (Node * string * Handler)%type.

Fixpoint registrations (t : list Call) : list registration :=
  match t with
  | [] => []
  | AddListener n evt h _ :: t' => (n, evt, h) :: registrations t'
  | _ :: t' => registrations t'
  end.

Fixpoint deregistrations (t : list Call) : list registration :=
  match t with
  | [] => []
  | RemoveListener n evt h :: t' => (n, evt, h) :: deregistrations t'
  | _ :: t' => deregistrations t'
  end.

Fixpoint invocations (t : list Call) : list (Handler * option string) :=
  match t with
  | [] => []
  | CallHandler h a :: t' => (h, a) :: invocations t'
  | _ :: t' => invocations t'
  end.

Fixpoint factory_invocations (t : list Call) : nat :=
  match t with
  | [] => 0
  | CallFactory :: t' => S (factory_invocations t')
  | _ :: t' => factory_invocations t'
  end.

(** Number of empty refs among the resolved targets. *)
Definition absent (nodes : list (option Node)) : nat :=
  List.length (filter (fun o => negb (truthy o)) nodes).

(** A sample world: ref [r] holds element [10 + r] for [r < 2], every other
    ref is empty; no listener is registered yet. *)
Definition sample_world : World :=
  mkWorld (fun r => if Nat.ltb r 2 then Some (10 + r) else None) [] [] 100 0.

Definition sample_callback : nat -> Handler := fun k => 50 + k.

(** ** The calls each loop is expected to make *)

(** One pass of a registration loop body for the pair ([node], [evt]). *)
Definition bind_calls (each : bool) (h : Handler) (o : AddEventListenerOptions)
           (node : option Node) (evt : string) : list Call :=
  (if each then [CallHandler h None] else []) ++
  match node with
  | Some n => [AddListener n evt h o]
  | None => []
  end.

Definition paired_bind_calls (each : bool) (h : Handler)
           (o : AddEventListenerOptions) (nodes : list (option Node))
           (events : list string) : list Call :=
  flat_map (fun i => bind_calls each h o (node_at nodes i) (event_at events i))
           (seq 0 (length nodes)).

Definition broadcast_bind_calls (each : bool) (h : Handler)
           (o : AddEventListenerOptions) (nodes : list (option Node))
           (events : list string) : list Call :=
  flat_map (fun node => flat_map (bind_calls each h o node) events) nodes.

(** One pass of a removal loop body. *)
Definition unbind_calls (h : Handler) (node : option Node) (evt : string)
  : list Call :=
  match node with
  | Some n => [RemoveListener n evt h]
  | None => []
  end.

Definition paired_unbind_calls (h : Handler) (nodes : list (option Node))
           (events : list string) : list Call :=
  flat_map (fun i => unbind_calls h (node_at nodes i) (event_at events i))
           (seq 0 (length nodes)).

Definition broadcast_unbind_calls (h : Handler) (nodes : list (option Node))
           (events : list string) : list Call :=
  flat_map (fun node => flat_map (unbind_calls h node) events) nodes.

(** What runs before the first loop iteration. *)
Definition prologue (once : bool) (h : Handler) (c : AbortSignal) : list Call :=
  CallFactory :: (if once then [CallHandler h None] else [])
              ++ [NewAbortController c].

Definition bind_loop (paired each : bool) (h : Handler)
           (o : AddEventListenerOptions) (nodes : list (option Node))
           (events : list string) : list Call :=
  if paired then paired_bind_calls each h o nodes events
  else broadcast_bind_calls each h o nodes events.

(** [runs m w a t]: from [w], [m] returns [a] normally, makes exactly the
    calls [t], and leaves the world those calls produce. *)
Definition runs {A : Type} (m : M A) (w : World) (a : A) (t : list Call) : Prop :=
  m w = (Normal a, apply_calls t w, t).

(** The cleanup closure the TypeScript effect returns. *)
Definition ts_teardown (paired : bool) (lo : AddEventListenerOptions)
           (c : AbortSignal) (nodes : list (option Node))
           (events : list string) (h : Handler) : Destructor :=
  if paired then abort c else TS.cleanup paired lo c nodes events h.

(** The cleanup closure the [useListener] effect returns. *)
Definition variant_teardown (paired : bool) (lo : AddEventListenerOptions)
           (c : AbortSignal) (refs : list RefObject)
           (events : list string) (h : Handler) : Destructor :=
  if paired then abort c else Variant.cleanup paired lo c refs events h.

(** The guard of the hook body. *)
Definition counts_mismatch (options : HookOptions) (ref : OneOrMany RefObject)
           (event : OneOrMany string) : bool :=
  is_paired options
  && negb (Nat.eqb (length (toArray ref)) (length (toArray event))).

(** The error kind raised by the guard. *)
Definition ConfigurationMismatch : JsError := Error mismatch_message.

(** The handler and the controller of the cycle that starts in [w]. *)
Definition cycle_handler (callback : nat -> Handler) (w : World) : Handler :=
  callback (factory_calls w).

Definition cycle_signal (w : World) : AbortSignal := next_signal w.

(** The targets as resolved when the cycle starts in [w]. *)
Definition resolve (w : World) (ref : OneOrMany RefObject) : list (option Node) :=
  map (current w) (toArray ref).

(** The registrations a list of (resolved target, event type) pairs gives
    rise to: pairs with an absent target are dropped, order is kept. *)
Definition resolved_pairs (h : Handler) (ps : list (option Node * string))
  : list registration :=
  flat_map (fun p => match fst p with
                     | Some n => [(n, snd p, h)]
                     | None => []
                     end) ps.

(** Pairs whose target is absent. *)
Definition absent_pairs (ps : list (option Node * string)) : nat :=
  length (filter (fun p => negb (truthy (fst p))) ps).

(** Every registration in the trace comes right after a call [handler()]
    of the handler being registered. *)
Fixpoint preceded_by_call (prev : option Call) (t : list Call) : bool :=
  match t with
  | [] => true
  | c :: t' =>
      match c with
      | AddListener _ _ h _ =>
          match prev with
          | Some (CallHandler h' None) => Nat.eqb h h'
          | _ => false
          end
      | _ => true
      end && preceded_by_call (Some c) t'
  end.

(** The calls of a completed setup that starts in [w]. *)
Definition setup_calls (options : HookOptions) (callback : nat -> Handler)
           (ref : OneOrMany RefObject) (event : OneOrMany string) (w : World)
  : list Call :=
  prologue (calls_once options) (cycle_handler callback w) (cycle_signal w)
  ++ bind_loop (is_paired options) (calls_on_each options)
               (cycle_handler callback w)
               (merge_options (cycle_signal w) (listener_options options))
               (resolve w ref) (toArray event).

(** The same options with the call-once flag cleared. *)
Definition without_call_once (options : HookOptions) : HookOptions :=
  mkHookOptions (oneToOne options) (Some false) (callHandlerOnEach options)
                (listenerOptions options).

(** Sample option bags. *)
Definition paired_options : HookOptions :=
  mkHookOptions (Some true) None None None.

Definition each_options : HookOptions :=
  mkHookOptions None None (Some true) None.

Definition once_options : HookOptions :=
  mkHookOptions None (Some true) None None.

(** [{ oneToOne, listenerOptions: { signal } }] with the caller's signal 7. *)
Definition custom_signal_options (paired : bool) : HookOptions :=
  mkHookOptions (Some paired) None None
                (Some (mkListenerOptions None None None (Holds 7))).

(** The calls each cleanup closure is expected to make. *)
Definition ts_teardown_calls (paired : bool) (lo : AddEventListenerOptions)
           (c : AbortSignal) (nodes : list (option Node))
           (events : list string) (h : Handler) : list Call :=
  if paired then [Abort c]
  else if truthy (signal_value lo) then broadcast_unbind_calls h nodes events
  else [Abort c].

Definition js_teardown_calls (paired : bool) (lo : AddEventListenerOptions)
           (c : AbortSignal) (nodes : list (option Node))
           (events : list string) (h : Handler) : list Call :=
  if truthy (signal_value lo) then
    if paired then paired_unbind_calls h nodes events
    else broadcast_unbind_calls h nodes events
  else [Abort c].

(** The variant resolves its refs in the world the cleanup runs in. *)
Definition variant_teardown_calls (paired : bool)
           (lo : AddEventListenerOptions) (c : AbortSignal)
           (nodes_now : list (option Node)) (events : list string)
           (h : Handler) : list Call :=
  if paired then [Abort c]
  else if truthy (signal_value lo) then broadcast_unbind_calls h nodes_now events
  else [Abort c].

(** Traces that only bind (no removal, no abort) and traces that never bind. *)
Definition only_binds (t : list Call) : bool :=
  forallb (fun c => match c with
                    | RemoveListener _ _ _ | Abort _ => false
                    | _ => true
                    end) t.

Definition never_binds (t : list Call) : bool :=
  forallb (fun c => match c with
                    | AddListener _ _ _ _ => false
                    | _ => true
                    end) t.

(** [{ listenerOptions: { capture: true, signal } }], BROADCAST. *)
Definition capture_signal_options : HookOptions :=
  mkHookOptions None None None
                (Some (mkListenerOptions (Some true) None None (Holds 7))).

(** ** The three builds side by side *)

Inductive Build := SourceTS | SourceJS | ListenerVariant.

Definition use_hook (b : Build)
  : OneOrMany RefObject -> OneOrMany string -> (nat -> Handler) ->
    list nat -> HookOptions -> M EffectCallback :=
  match b with
  | SourceTS => TS.useEventer
  | SourceJS => JS.useEventer
  | ListenerVariant => Variant.useListener
  end.

(** The cleanup closure each build returns from its effect. *)
Definition build_teardown (b : Build) (paired : bool)
           (lo : AddEventListenerOptions) (c : AbortSignal)
           (refs : list RefObject) (nodes : list (option Node))
           (events : list string) (h : Handler) : Destructor :=
  match b with
  | SourceTS => ts_teardown paired lo c nodes events h
  | SourceJS => JS.cleanup paired lo c nodes events h
  | ListenerVariant => variant_teardown paired lo c refs events h
  end.

(** The calls of that closure; [nodes] are the targets resolved at setup,
    [nodes_now] the targets as the refs resolve when the closure runs. *)
Definition build_teardown_calls (b : Build) (paired : bool)
           (lo : AddEventListenerOptions) (c : AbortSignal)
           (nodes nodes_now : list (option Node)) (events : list string)
           (h : Handler) : list Call :=
  match b with
  | SourceTS => ts_teardown_calls paired lo c nodes events h
  | SourceJS => js_teardown_calls paired lo c nodes events h
  | ListenerVariant => variant_teardown_calls paired lo c nodes_now events h
  end.

(** Every signal a listener carries was handed out before the next
    [AbortController] is created. *)
Definition signals_known (w : World) : bool :=
  forallb (fun l => match l_signal l with
                    | Some s => Nat.ltb s (next_signal w)
                    | None => true
                    end) (listeners w).

(** Whether a listener outlives the removals and aborts of a trace. *)
Definition survives (t : list Call) (l : Listener) : bool :=
  forallb (fun c => match c with
                    | RemoveListener n evt h =>
                        negb (same_listener n evt h false l)
                    | Abort s => negb (has_signal s l)
                    | _ => true
                    end) t.

(** [n] activation cycles in a row, each torn down before the next starts. *)
Fixpoint cycles (n : nat) (hook : M EffectCallback) : M unit :=
  match n with
  | O => ret tt
  | S k => cycle hook ;; cycles k hook
  end.

(** ** [dist/index.js]: the object-spread helper of the published bundle

    The bundle replaces [{ signal: controller.signal, ...listenerOptions }]
    by [__spreadValues({ signal: controller.signal }, listenerOptions)].
    Objects are ordinary extensible objects with configurable data
    properties; keys are names that are not array indices, so that property
    order is insertion order. *)

Module Dist.

Inductive PropertyKey :=
| StringKey (name : string)
| SymbolKey (id : nat).

Definition key_eqb (k1 k2 : PropertyKey) : bool :=
  match k1, k2 with
  | StringKey a, StringKey b => String.eqb a b
  | SymbolKey a, SymbolKey b => Nat.eqb a b
  | _, _ => false
  end.

Definition is_string (k : PropertyKey) : bool :=
  match k with
  | StringKey _ => true
  | SymbolKey _ => false
  end.

(** The values a listener options bag can hold. *)
Inductive Value :=
| Undefined
| BoolValue (b : bool)
| SignalValue (s : AbortSignal).

Record Property := mkProperty {
  p_key : PropertyKey;
  p_value : Value;
  p_enumerable : bool
}.

(** Own properties in property order, and the keys found along the prototype
    chain, each with its enumerable flag. *)
Record JsObject := mkObject {
  own : list Property;
  inherited : list (PropertyKey * bool)
}.

(** The keys of [Object.prototype], none of them enumerable. *)
Definition Object_prototype : list (PropertyKey * bool) :=
  map (fun name => (StringKey name, false))
      ["constructor"; "hasOwnProperty"; "isPrototypeOf";
       "propertyIsEnumerable"; "toLocaleString"; "toString"; "valueOf";
       "__proto__"]%string.

(** The literal [{}]. *)
Definition empty_object : JsObject := mkObject [] Object_prototype.

Definition get_own (o : JsObject) (k : PropertyKey) : option Property :=
  find (fun p => key_eqb (p_key p) k) (own o).

(** [__hasOwnProp.call(o, k)] *)
Definition __hasOwnProp (o : JsObject) (k : PropertyKey) : bool :=
  truthy (get_own o k).

(** [__propIsEnum.call(o, k)] *)
Definition __propIsEnum (o : JsObject) (k : PropertyKey) : bool :=
  match get_own o k with
  | Some p => p_enumerable p
  | None => false
  end.

(** [k in o] *)
Definition key_in (k : PropertyKey) (o : JsObject) : bool :=
  __hasOwnProp o k || existsb (fun q => key_eqb (fst q) k) (inherited o).

(** [o[k]] for data properties: an own property's value, else [undefined].
    The helper reads [b[prop]] under its own-property guards only. *)
Definition get (o : JsObject) (k : PropertyKey) : Value :=
  match get_own o k with
  | Some p => p_value p
  | None => Undefined
  end.

(** The keys [for (var prop in o)] visits: enumerable string keys, own ones
    first, then inherited ones that no own property shadows. *)
Definition for_in_keys (o : JsObject) : list PropertyKey :=
  map p_key (filter (fun p => p_enumerable p && is_string (p_key p)) (own o))
  ++ map fst (filter (fun q => snd q && is_string (fst q)
                               && negb (__hasOwnProp o (fst q)))
                     (inherited o)).

(** [__getOwnPropSymbols(o)] *)
Definition __getOwnPropSymbols (o : JsObject) : list PropertyKey :=
  filter (fun k => negb (is_string k)) (map p_key (own o)).

(** [__defProp(obj, key, { enumerable: true, configurable: true,
    writable: true, value })]: an own property is redefined in place, a
    missing one is added at the end. *)
Fixpoint define_in (ps : list Property) (key : PropertyKey) (value : Value)
  : list Property :=
  match ps with
  | [] => [mkProperty key value true]
  | p :: ps' =>
      if key_eqb (p_key p) key then mkProperty key value true :: ps'
      else p :: define_in ps' key value
  end.

Definition __defProp (obj : JsObject) (key : PropertyKey) (value : Value)
  : JsObject :=
  mkObject (define_in (own obj) key value) (inherited obj).

(** [obj[key] = value] for a key that is not in [obj]: a new own property. *)
Definition assign_new (obj : JsObject) (key : PropertyKey) (value : Value)
  : JsObject :=
  mkObject (own obj ++ [mkProperty key value true]) (inherited obj).

Definition __defNormalProp (obj : JsObject) (key : PropertyKey) (value : Value)
  : JsObject :=
  if key_in key obj then __defProp obj key value
  else assign_new obj key value.

(** [__spreadValues(a, b)]; [symbols] tells whether the engine defines
    [Object.getOwnPropertySymbols], and [b] is [None] for a falsy argument. *)
Definition __spreadValues (symbols : bool) (a : JsObject)
           (b : option JsObject) : JsObject :=
  let b := match b with
           | Some o => o
           | None => empty_object
           end in
  let a := fold_left (fun a prop =>
                        if __hasOwnProp b prop
                        then __defNormalProp a prop (get b prop)
                        else a)
                     (for_in_keys b) a in
  if symbols then
    fold_left (fun a prop =>
                 if __propIsEnum b prop
                 then __defNormalProp a prop (get b prop)
                 else a)
              (__getOwnPropSymbols b) a
  else a.

(** A listener options bag as the record of its members: [capture], [once]
    and [passive] are absent when the property is missing or [undefined];
    for [signal] a key holding [undefined] is kept apart from a missing key. *)
Definition read_bool (o : JsObject) (name : string) : option bool :=
  match get o (StringKey name) with
  | BoolValue b => Some b
  | _ => None
  end.

Definition read_signal (o : JsObject) : Member AbortSignal :=
  match get_own o (StringKey "signal") with
  | None => Missing
  | Some p =>
      match p_value p with
      | SignalValue s => Holds s
      | _ => Undef
      end
  end.

Definition read_options (o : JsObject) : AddEventListenerOptions :=
  mkListenerOptions (read_bool o "capture") (read_bool o "once")
                    (read_bool o "passive") (read_signal o).

(** The literal [{ signal: controller.signal }]. *)
Definition signal_literal (controller : AbortSignal) : JsObject :=
  mkObject [mkProperty (StringKey "signal") (SignalValue controller) true]
           Object_prototype.

(** An object whose own keys are distinct. *)
Definition distinct_keys (o : JsObject) : Prop :=
  NoDup (map p_key (own o)).

End Dist.

(** [{ listenerOptions: { signal: undefined } }] *)
Definition undefined_signal_options : HookOptions :=
  mkHookOptions None None None
                (Some (mkListenerOptions None None None Undef)).

(** * Proofs *)

(** ** Running hook code *)

Lemma apply_calls_app (t1 t2 : list Call) (w : World) :
  apply_calls (t1 ++ t2) w = apply_calls t2 (apply_calls t1 w).
Proof. unfold apply_calls. apply fold_left_app. Qed.

Lemma current_apply_call (c : Call) (w : World) :
  current (apply_call c w) = current w.
Proof.
  destruct c; simpl; try reflexivity.
  unfold dom_add.
  destruct (is_aborted w (signal_value o)); [reflexivity|].
  destruct (existsb _ _); reflexivity.
Qed.

Lemma current_apply_calls (t : list Call) (w : World) :
  current (apply_calls t w) = current w.
Proof.
  revert w. induction t as [|c t IH]; intros w; simpl; [reflexivity|].
  unfold apply_calls in *. simpl. rewrite IH. apply current_apply_call.
Qed.

Lemma runs_ret {A : Type} (a : A) (w : World) : runs (ret a) w a [].
Proof. reflexivity. Qed.

Lemma runs_bind {A B : Type} (m : M A) (k : A -> M B) (w : World)
      (a : A) (b : B) (t1 t2 : list Call) :
  runs m w a t1 ->
  runs (k a) (apply_calls t1 w) b t2 ->
  runs (bind m k) w b (t1 ++ t2).
Proof.
  unfold runs, bind. intros Hm Hk. rewrite Hm, Hk, apply_calls_app. reflexivity.
Qed.

Lemma runs_emit (c : Call) (w : World) : runs (emit c) w tt [c].
Proof. reflexivity. Qed.

Lemma runs_when (b : bool) (m : M unit) (w : World) (t : list Call) :
  runs m w tt t -> runs (when b m) w tt (if b then t else []).
Proof. destruct b; simpl; [trivial | intros _; apply runs_ret]. Qed.

Lemma runs_call_factory (callback : nat -> Handler) (w : World) :
  runs (call_factory callback) w (callback (factory_calls w)) [CallFactory].
Proof. reflexivity. Qed.

Lemma runs_new_AbortController (w : World) :
  runs new_AbortController w (next_signal w) [NewAbortController (next_signal w)].
Proof. reflexivity. Qed.

Lemma runs_get_current (rf : RefObject) (w : World) :
  runs (get_current rf) w (current w rf) [].
Proof. reflexivity. Qed.

Lemma runs_array_map_current (refs : list RefObject) (w : World) :
  runs (array_map get_current refs) w (map (current w) refs) [].
Proof.
  induction refs as [|rf refs IH]; simpl; [apply runs_ret|].
  apply runs_bind with (t1 := []) (t2 := []) (a := current w rf);
    [apply runs_get_current|].
  apply runs_bind with (t1 := []) (t2 := []) (a := map (current w) refs);
    [exact IH | apply runs_ret].
Qed.

(** A loop whose body's calls depend on the world through the refs only. *)
Lemma runs_for_of {A : Type} (tr : (RefObject -> option Node) -> A -> list Call)
      (body : A -> M unit) (xs : list A) :
  (forall x w, runs (body x) w tt (tr (current w) x)) ->
  forall w, runs (for_of xs body) w tt (flat_map (tr (current w)) xs).
Proof.
  intros Hbody. induction xs as [|x xs IH]; intros w; simpl.
  - apply runs_ret.
  - eapply runs_bind; [apply Hbody|].
    specialize (IH (apply_calls (tr (current w) x) w)).
    rewrite current_apply_calls in IH. exact IH.
Qed.

Lemma runs_optional_add (node : option Node) (evt : string) (h : Handler)
      (o : AddEventListenerOptions) (w : World) :
  runs (optional_call node (fun n => addEventListener n evt h o)) w tt
       (match node with Some n => [AddListener n evt h o] | None => [] end).
Proof. destruct node; [apply runs_emit | apply runs_ret]. Qed.

Lemma runs_optional_remove (node : option Node) (evt : string) (h : Handler)
      (w : World) :
  runs (optional_call node (fun n => removeEventListener n evt h)) w tt
       (unbind_calls h node evt).
Proof. destruct node; [apply runs_emit | apply runs_ret]. Qed.

Lemma runs_bind_body (each : bool) (h : Handler) (o : AddEventListenerOptions)
      (node : option Node) (evt : string) (w : World) :
  runs (when each (call_handler h) ;;
        optional_call node (fun n => addEventListener n evt h o))
       w tt (bind_calls each h o node evt).
Proof.
  unfold bind_calls. eapply runs_bind.
  - apply runs_when, runs_emit.
  - apply runs_optional_add.
Qed.

Lemma runs_paired_bind (each : bool) (h : Handler) (o : AddEventListenerOptions)
      (nodes : list (option Node)) (events : list string) (w : World) :
  runs (for_range (length nodes) (fun i =>
          when each (call_handler h) ;;
          optional_call (node_at nodes i) (fun n =>
            addEventListener n (event_at events i) h o)))
       w tt (paired_bind_calls each h o nodes events).
Proof.
  unfold for_range, paired_bind_calls.
  apply (runs_for_of
           (fun _ i => bind_calls each h o (node_at nodes i) (event_at events i))).
  intros i w'. apply runs_bind_body.
Qed.

Lemma runs_broadcast_bind (each : bool) (h : Handler)
      (o : AddEventListenerOptions) (nodes : list (option Node))
      (events : list string) (w : World) :
  runs (for_of nodes (fun node =>
          for_of events (fun evt =>
            when each (call_handler h) ;;
            optional_call node (fun n => addEventListener n evt h o))))
       w tt (broadcast_bind_calls each h o nodes events).
Proof.
  unfold broadcast_bind_calls.
  apply (runs_for_of
           (fun _ node => flat_map (bind_calls each h o node) events)).
  intros node w'.
  apply (runs_for_of (fun _ evt => bind_calls each h o node evt)).
  intros evt w''. apply runs_bind_body.
Qed.

Lemma runs_paired_unbind (h : Handler) (nodes : list (option Node))
      (events : list string) (w : World) :
  runs (for_range (length nodes) (fun i =>
          optional_call (node_at nodes i) (fun n =>
            removeEventListener n (event_at events i) h)))
       w tt (paired_unbind_calls h nodes events).
Proof.
  unfold for_range, paired_unbind_calls.
  apply (runs_for_of
           (fun _ i => unbind_calls h (node_at nodes i) (event_at events i))).
  intros i w'. apply runs_optional_remove.
Qed.

Lemma runs_broadcast_unbind (h : Handler) (nodes : list (option Node))
      (events : list string) (w : World) :
  runs (for_of nodes (fun node =>
          for_of events (fun evt =>
            optional_call node (fun n => removeEventListener n evt h))))
       w tt (broadcast_unbind_calls h nodes events).
Proof.
  unfold broadcast_unbind_calls.
  apply (runs_for_of (fun _ node => flat_map (unbind_calls h node) events)).
  intros node w'.
  apply (runs_for_of (fun _ evt => unbind_calls h node evt)).
  intros evt w''. apply runs_optional_remove.
Qed.

Lemma runs_bind_silent {A B : Type} (m : M A) (k : A -> M B) (w : World)
      (a : A) (b : B) (t : list Call) :
  runs m w a [] -> runs (k a) w b t -> runs (bind m k) w b t.
Proof. intros Hm Hk. apply (runs_bind (t1 := []) (t2 := t) k Hm Hk). Qed.

Lemma runs_then_ret {A B : Type} (m : M A) (w : World) (a : A) (b : B)
      (t : list Call) :
  runs m w a t -> runs (m ;; ret b) w b t.
Proof.
  intros Hm. rewrite <- (app_nil_r t).
  eapply runs_bind; [exact Hm | apply runs_ret].
Qed.

(** Everything up to the loops is common to the three hooks. *)
Lemma runs_prologue {B : Type} (once : bool) (callback : nat -> Handler)
      (k : Handler -> AbortSignal -> M B) (w : World) (b : B) (t : list Call) :
  let h := callback (factory_calls w) in
  let c := next_signal w in
  (forall w', current w' = current w -> runs (k h c) w' b t) ->
  runs (handler <- call_factory callback ;;
        when once (call_handler handler) ;;
        controller <- new_AbortController ;;
        k handler controller)
       w b (prologue once h c ++ t).
Proof.
  intros h c Hk. unfold prologue.
  change (CallFactory :: ?l) with ([CallFactory] ++ l).
  rewrite <- !app_assoc.
  eapply runs_bind; [apply runs_call_factory|]. fold h.
  eapply runs_bind; [apply runs_when, runs_emit|].
  eapply runs_bind.
  - destruct once; apply runs_new_AbortController.
  - apply Hk. rewrite <- !apply_calls_app. apply current_apply_calls.
Qed.

(** *** The effect of [src/index.ts] *)

Lemma runs_ts_effect (paired once each : bool) (lo : AddEventListenerOptions)
      (refs : list RefObject) (events : list string)
      (callback : nat -> Handler) (w : World) :
  let h := callback (factory_calls w) in
  let c := next_signal w in
  let nodes := map (current w) refs in
  runs (TS.effect paired once each lo refs events callback) w
       (ts_teardown paired lo c nodes events h)
       (prologue once h c
        ++ bind_loop paired each h (merge_options c lo) nodes events).
Proof.
  intros h c nodes. unfold TS.effect.
  apply (runs_prologue once callback
           (fun handler controller =>
              nodes <- array_map get_current refs ;; _)).
  intros w' Hcur. fold h c.
  eapply runs_bind_silent; [apply runs_array_map_current|].
  rewrite Hcur. fold nodes. unfold ts_teardown, bind_loop.
  destruct paired; eapply runs_then_ret.
  - apply runs_paired_bind.
  - apply runs_broadcast_bind.
Qed.

(** *** The effect of [src/index.js] *)

Lemma runs_js_effect (paired once each : bool) (lo : AddEventListenerOptions)
      (refs : list RefObject) (events : list string)
      (callback : nat -> Handler) (w : World) :
  let h := callback (factory_calls w) in
  let c := next_signal w in
  let nodes := map (current w) refs in
  runs (JS.effect paired once each lo refs events callback) w
       (JS.cleanup paired lo c nodes events h)
       (prologue once h c
        ++ bind_loop paired each h (merge_options c lo) nodes events).
Proof.
  intros h c nodes. unfold JS.effect.
  apply (runs_prologue once callback
           (fun handler controller =>
              nodes <- array_map get_current refs ;; _)).
  intros w' Hcur. fold h c.
  eapply runs_bind_silent; [apply runs_array_map_current|].
  rewrite Hcur. fold nodes. unfold bind_loop.
  eapply runs_then_ret.
  destruct paired; [apply runs_paired_bind | apply runs_broadcast_bind].
Qed.

(** *** The effect of the [useListener] variant *)

Lemma runs_optional_current (o : option RefObject) (w : World) :
  runs (Variant.optional_current o) w
       (match o with Some rf => current w rf | None => None end) [].
Proof. destruct o; [apply runs_get_current | apply runs_ret]. Qed.

Lemma node_at_map (cur : RefObject -> option Node) (refs : list RefObject)
      (i : nat) :
  node_at (map cur refs) i
  = match nth_error refs i with Some rf => cur rf | None => None end.
Proof. unfold node_at. rewrite nth_error_map. destruct (nth_error refs i); reflexivity. Qed.

Lemma flat_map_map {A B C : Type} (f : B -> list C) (g : A -> B) (xs : list A) :
  flat_map f (map g xs) = flat_map (fun x => f (g x)) xs.
Proof. induction xs as [|x xs IH]; simpl; [reflexivity | now rewrite IH]. Qed.

Lemma runs_variant_effect (paired once each : bool)
      (lo : AddEventListenerOptions) (refs : list RefObject)
      (events : list string) (callback : nat -> Handler) (w : World) :
  let h := callback (factory_calls w) in
  let c := next_signal w in
  let nodes := map (current w) refs in
  runs (Variant.effect paired once each lo refs events callback) w
       (variant_teardown paired lo c refs events h)
       (prologue once h c
        ++ bind_loop paired each h (merge_options c lo) nodes events).
Proof.
  intros h c nodes. unfold Variant.effect.
  apply (runs_prologue once callback (fun handler controller => _)).
  intros w' Hcur. fold h c.
  unfold variant_teardown, bind_loop.
  destruct paired; eapply runs_then_ret.
  - unfold for_range, paired_bind_calls, nodes. rewrite length_map.
    pose (tr := fun (cur : RefObject -> option Node) (i : nat) =>
                  bind_calls each h (merge_options c lo)
                             (node_at (map cur refs) i) (event_at events i)).
    rewrite <- Hcur. apply (runs_for_of tr). intros i w''. unfold tr, bind_calls.
    eapply runs_bind; [apply runs_when, runs_emit|].
    eapply runs_bind_silent; [apply runs_optional_current|].
    rewrite current_apply_calls, node_at_map. apply runs_optional_add.
  - unfold broadcast_bind_calls, nodes. rewrite flat_map_map.
    pose (tr := fun (cur : RefObject -> option Node) (rf : RefObject) =>
                  flat_map (bind_calls each h (merge_options c lo) (cur rf))
                           events).
    rewrite <- Hcur. apply (runs_for_of tr). intros rf w''. unfold tr.
    apply (runs_for_of
             (fun cur evt => bind_calls each h (merge_options c lo) (cur rf) evt)).
    intros evt w3. unfold bind_calls.
    eapply runs_bind; [apply runs_when, runs_emit|].
    eapply runs_bind_silent; [apply (runs_optional_current (Some rf))|].
    rewrite current_apply_calls. apply runs_optional_add.
Qed.

(** *** The hooks: guard, then effect *)

Lemma guard_throws (paired : bool) (refs : list RefObject)
      (events : list string) (k : M EffectCallback) (w : World) :
  paired && negb (Nat.eqb (length refs) (length events)) = true ->
  setup (when (paired && negb (Nat.eqb (length refs) (length events)))
              (throw (Error mismatch_message)) ;; k) w
  = (Throw ConfigurationMismatch, w, []).
Proof. intros H. unfold setup, bind. rewrite H. reflexivity. Qed.

Lemma guard_passes (paired : bool) (refs : list RefObject)
      (events : list string) (effect : EffectCallback) (deps : list nat)
      (w : World) (td : Destructor) (t : list Call) :
  paired && negb (Nat.eqb (length refs) (length events)) = false ->
  runs effect w td t ->
  runs (setup (when (paired && negb (Nat.eqb (length refs) (length events)))
                    (throw (Error mismatch_message)) ;;
               useEffect effect deps)) w td t.
Proof.
  intros H Heff. rewrite H. unfold setup.
  eapply runs_bind_silent; [|exact Heff].
  eapply runs_bind_silent; apply runs_ret.
Qed.

Section Hook.

Variables (ref : OneOrMany RefObject) (event : OneOrMany string)
          (callback : nat -> Handler) (dependencies : list nat)
          (options : HookOptions) (w : World).

Let h := cycle_handler callback w.
Let c := cycle_signal w.
Let nodes := resolve w ref.
Let events := toArray event.
Let lo := listener_options options.

Lemma setup_ts_throws :
  counts_mismatch options ref event = true ->
  setup (TS.useEventer ref event callback dependencies options) w
  = (Throw ConfigurationMismatch, w, []).
Proof. apply guard_throws. Qed.

Lemma setup_ts_runs :
  counts_mismatch options ref event = false ->
  runs (setup (TS.useEventer ref event callback dependencies options)) w
       (ts_teardown (is_paired options) lo c nodes events h)
       (setup_calls options callback ref event w).
Proof. intros H. apply guard_passes; [exact H | apply runs_ts_effect]. Qed.

Lemma setup_js_throws :
  counts_mismatch options ref event = true ->
  setup (JS.useEventer ref event callback dependencies options) w
  = (Throw ConfigurationMismatch, w, []).
Proof. apply guard_throws. Qed.

Lemma setup_js_runs :
  counts_mismatch options ref event = false ->
  runs (setup (JS.useEventer ref event callback dependencies options)) w
       (JS.cleanup (is_paired options) lo c nodes events h)
       (setup_calls options callback ref event w).
Proof. intros H. apply guard_passes; [exact H | apply runs_js_effect]. Qed.

Lemma setup_variant_throws :
  counts_mismatch options ref event = true ->
  setup (Variant.useListener ref event callback dependencies options) w
  = (Throw ConfigurationMismatch, w, []).
Proof. apply guard_throws. Qed.

Lemma setup_variant_runs :
  counts_mismatch options ref event = false ->
  runs (setup (Variant.useListener ref event callback dependencies options)) w
       (variant_teardown (is_paired options) lo c (toArray ref) events h)
       (setup_calls options callback ref event w).
Proof. intros H. apply guard_passes; [exact H | apply runs_variant_effect]. Qed.

End Hook.

(** ** Reading traces *)

Lemma registrations_app (t1 t2 : list Call) :
  registrations (t1 ++ t2) = registrations t1 ++ registrations t2.
Proof.
  induction t1 as [|c t1 IH]; simpl; [reflexivity|].
  destruct c; simpl; rewrite IH; reflexivity.
Qed.

Lemma deregistrations_app (t1 t2 : list Call) :
  deregistrations (t1 ++ t2) = deregistrations t1 ++ deregistrations t2.
Proof.
  induction t1 as [|c t1 IH]; simpl; [reflexivity|].
  destruct c; simpl; rewrite IH; reflexivity.
Qed.

Lemma invocations_app (t1 t2 : list Call) :
  invocations (t1 ++ t2) = invocations t1 ++ invocations t2.
Proof.
  induction t1 as [|c t1 IH]; simpl; [reflexivity|].
  destruct c; simpl; rewrite IH; reflexivity.
Qed.

Lemma registrations_flat_map {A : Type} (f : A -> list Call) (xs : list A) :
  registrations (flat_map f xs) = flat_map (fun x => registrations (f x)) xs.
Proof.
  induction xs as [|x xs IH]; simpl; [reflexivity|].
  rewrite registrations_app, IH. reflexivity.
Qed.

Lemma deregistrations_flat_map {A : Type} (f : A -> list Call) (xs : list A) :
  deregistrations (flat_map f xs)
  = flat_map (fun x => deregistrations (f x)) xs.
Proof.
  induction xs as [|x xs IH]; simpl; [reflexivity|].
  rewrite deregistrations_app, IH. reflexivity.
Qed.

Lemma invocations_flat_map {A : Type} (f : A -> list Call) (xs : list A) :
  invocations (flat_map f xs) = flat_map (fun x => invocations (f x)) xs.
Proof.
  induction xs as [|x xs IH]; simpl; [reflexivity|].
  rewrite invocations_app, IH. reflexivity.
Qed.

Lemma registrations_prologue (once : bool) (h : Handler) (c : AbortSignal) :
  registrations (prologue once h c) = [].
Proof. destruct once; reflexivity. Qed.

Lemma registrations_bind_calls (each : bool) (h : Handler)
      (o : AddEventListenerOptions) (node : option Node) (evt : string) :
  registrations (bind_calls each h o node evt)
  = match node with Some n => [(n, evt, h)] | None => [] end.
Proof. destruct each, node; reflexivity. Qed.

(** An index loop over two arrays of equal length walks their [combine]. *)
Lemma flat_map_by_index {C : Type} (g : option Node -> string -> list C)
      (nodes : list (option Node)) (events : list string) :
  length nodes = length events ->
  flat_map (fun i => g (node_at nodes i) (event_at events i))
           (seq 0 (length nodes))
  = flat_map (fun p => g (fst p) (snd p)) (combine nodes events).
Proof.
  revert events. induction nodes as [|o nodes IH]; intros [|e events] Hlen;
    simpl in *; try discriminate; [reflexivity|].
  f_equal. rewrite <- seq_shift, flat_map_map.
  apply IH. congruence.
Qed.

Lemma flat_map_flat_map {A B C : Type} (f : B -> list C) (g : A -> list B)
      (xs : list A) :
  flat_map f (flat_map g xs) = flat_map (fun x => flat_map f (g x)) xs.
Proof.
  induction xs as [|x xs IH]; simpl; [reflexivity|].
  rewrite flat_map_app, IH. reflexivity.
Qed.

Lemma registrations_paired (each : bool) (h : Handler)
      (o : AddEventListenerOptions) (nodes : list (option Node))
      (events : list string) :
  length nodes = length events ->
  registrations (paired_bind_calls each h o nodes events)
  = resolved_pairs h (combine nodes events).
Proof.
  intros Hlen. unfold paired_bind_calls, resolved_pairs.
  rewrite registrations_flat_map.
  rewrite <- (flat_map_by_index
                (fun node evt => match node with
                                 | Some n => [(n, evt, h)]
                                 | None => []
                                 end) nodes events Hlen).
  apply flat_map_ext. intros i. apply registrations_bind_calls.
Qed.

Lemma registrations_broadcast (each : bool) (h : Handler)
      (o : AddEventListenerOptions) (nodes : list (option Node))
      (events : list string) :
  registrations (broadcast_bind_calls each h o nodes events)
  = resolved_pairs h (list_prod nodes events).
Proof.
  unfold broadcast_bind_calls, resolved_pairs.
  rewrite registrations_flat_map, list_prod_as_flat_map, flat_map_flat_map.
  apply flat_map_ext. intros node.
  rewrite registrations_flat_map, flat_map_map.
  apply flat_map_ext. intros evt. apply registrations_bind_calls.
Qed.

Lemma resolved_pairs_count (h : Handler) (ps : list (option Node * string)) :
  length (resolved_pairs h ps) + absent_pairs ps = length ps.
Proof.
  unfold resolved_pairs, absent_pairs.
  induction ps as [|[[n|] e] ps IH]; simpl in *; lia.
Qed.

Lemma absent_pairs_combine (nodes : list (option Node)) (events : list string) :
  length nodes = length events ->
  absent_pairs (combine nodes events) = absent nodes.
Proof.
  unfold absent_pairs, absent. revert events.
  induction nodes as [|o nodes IH]; intros [|e events] Hlen; simpl in *;
    try discriminate; [reflexivity|].
  destruct (negb (truthy o)); simpl; rewrite IH; congruence.
Qed.

Lemma absent_pairs_row (o : option Node) (events : list string) :
  absent_pairs (map (fun e => (o, e)) events)
  = if truthy o then 0 else length events.
Proof.
  unfold absent_pairs.
  induction events as [|e events IH]; simpl; [now destruct o|].
  destruct o; simpl in *; [exact IH | now rewrite IH].
Qed.

Lemma absent_pairs_prod (nodes : list (option Node)) (events : list string) :
  absent_pairs (list_prod nodes events) = absent nodes * length events.
Proof.
  induction nodes as [|o nodes IH]; simpl; [reflexivity|].
  unfold absent_pairs in *. rewrite filter_app, length_app, IH.
  fold (absent_pairs (map (fun e => (o, e)) events)).
  rewrite absent_pairs_row. unfold absent. simpl.
  destruct o; simpl; reflexivity.
Qed.

Lemma registrations_setup_calls (options : HookOptions)
      (callback : nat -> Handler) (ref : OneOrMany RefObject)
      (event : OneOrMany string) (w : World) :
  counts_mismatch options ref event = false ->
  registrations (setup_calls options callback ref event w)
  = resolved_pairs (cycle_handler callback w)
      (if is_paired options
       then combine (resolve w ref) (toArray event)
       else list_prod (resolve w ref) (toArray event)).
Proof.
  intros Hok. unfold setup_calls, bind_loop.
  rewrite registrations_app, registrations_prologue. simpl.
  unfold counts_mismatch in Hok.
  destruct (is_paired options); simpl in Hok.
  - apply registrations_paired. unfold resolve. rewrite length_map.
    apply Nat.eqb_eq. now destruct (Nat.eqb _ _).
  - apply registrations_broadcast.
Qed.

(** ** The mismatch guard *)

(** C3.  Setup raises the configuration error exactly when the topology is
    PAIRED and the number of targets differs from the number of event types;
    the error leaves the world as it was and no call has been made: no
    registration, no call of the callback factory.  In every other case
    setup completes. *)
Theorem mismatch_guard (ref : OneOrMany RefObject) (event : OneOrMany string)
        (callback : nat -> Handler) (dependencies : list nat)
        (options : HookOptions) (w : World) :
  (is_paired options = true /\ length (toArray ref) <> length (toArray event)
   -> setup (TS.useEventer ref event callback dependencies options) w
      = (Throw ConfigurationMismatch, w, []))
  /\ (forall e w' t,
      setup (TS.useEventer ref event callback dependencies options) w
      = (Throw e, w', t) ->
      is_paired options = true
      /\ length (toArray ref) <> length (toArray event)).
Proof.
  split.
  - intros [Hp Hlen]. apply setup_ts_throws. unfold counts_mismatch.
    rewrite Hp. simpl. apply negb_true_iff, Nat.eqb_neq, Hlen.
  - intros e w' t Hrun.
    destruct (counts_mismatch options ref event) eqn:Hm.
    + unfold counts_mismatch in Hm. apply andb_true_iff in Hm as [Hp Hlen].
      split; [exact Hp|]. now apply Nat.eqb_neq, negb_true_iff.
    + pose proof (setup_ts_runs ref event callback dependencies options w Hm)
        as Hok.
      unfold runs in Hok. rewrite Hok in Hrun.
      discriminate.
Qed.

(** Scenario D: two targets, one event type, PAIRED. *)
Lemma mismatch_guard_witness :
  setup (TS.useEventer (Many [0; 1]) (One "click"%string) sample_callback []
                       paired_options) sample_world
  = (Throw ConfigurationMismatch, sample_world, []).
Proof.
  apply (proj1 (mismatch_guard (Many [0; 1]) (One "click"%string)
                               sample_callback [] paired_options sample_world)).
  split; [reflexivity | simpl; lia].
Defined.

(** ** Cardinality of the binding matrix *)

Lemma in_resolved_pairs (h : Handler) (ps : list (option Node * string))
      (n : Node) (e : string) (h' : Handler) :
  In (n, e, h') (resolved_pairs h ps) <-> h' = h /\ In (Some n, e) ps.
Proof.
  unfold resolved_pairs. rewrite in_flat_map. split.
  - intros [[[m|] e0] [Hin Hp]]; simpl in Hp; [|contradiction].
    destruct Hp as [Hp|[]]. inversion Hp; subst. auto.
  - intros [-> Hin]. exists (Some n, e). simpl. auto.
Qed.

Lemma in_combine_index {A B : Type} (xs : list A) (ys : list B) (a : A) (b : B) :
  In (a, b) (combine xs ys)
  <-> exists i, nth_error xs i = Some a /\ nth_error ys i = Some b.
Proof.
  revert ys. induction xs as [|x xs IH]; intros [|y ys]; simpl.
  - split; [contradiction | intros [[|i] [H _]]; discriminate].
  - split; [contradiction | intros [[|i] [H _]]; discriminate].
  - split; [contradiction | intros [[|i] [_ H]]; discriminate].
  - rewrite IH. split.
    + intros [Heq|[i Hi]]; [inversion Heq; subst; now exists 0 | now exists (S i)].
    + intros [[|i] [Ha Hb]]; simpl in *; [left; congruence | right; now exists i].
Qed.

(** C5.  Under BROADCAST setup completes, its registrations are the cross
    product of the resolved targets with the event types, targets outermost,
    less the pairs whose target is absent; their number is
    [len(targets) * len(eventTypes)] minus the number of those pairs. *)
Theorem broadcast_cardinality (ref : OneOrMany RefObject)
        (event : OneOrMany string) (callback : nat -> Handler)
        (dependencies : list nat) (options : HookOptions) (w : World) :
  is_paired options = false ->
  exists td w' t,
    setup (TS.useEventer ref event callback dependencies options) w
    = (Normal td, w', t)
    /\ registrations t
       = resolved_pairs (cycle_handler callback w)
                        (list_prod (resolve w ref) (toArray event))
    /\ length (registrations t)
       = length (toArray ref) * length (toArray event)
         - absent_pairs (list_prod (resolve w ref) (toArray event))
    /\ (forall n e h,
        In (n, e, h) (registrations t)
        <-> h = cycle_handler callback w
            /\ In (Some n) (resolve w ref) /\ In e (toArray event)).
Proof.
  intros Hp.
  assert (Hm : counts_mismatch options ref event = false)
    by (unfold counts_mismatch; now rewrite Hp).
  pose proof (setup_ts_runs ref event callback dependencies options w Hm) as Hr.
  pose proof (registrations_setup_calls options callback ref event w Hm) as Hreg.
  rewrite Hp in Hreg.
  eexists _, _, _. split; [exact Hr|]. split; [exact Hreg|]. split.
  - rewrite Hreg.
    pose proof (resolved_pairs_count (cycle_handler callback w)
                  (list_prod (resolve w ref) (toArray event))) as Hc.
    rewrite length_prod in Hc. unfold resolve in Hc at 3.
    rewrite length_map in Hc. lia.
  - intros n e h. rewrite Hreg, in_resolved_pairs, in_prod_iff. reflexivity.
Qed.

(** Scenario B: two populated targets, two event types, four registrations. *)
Lemma broadcast_cardinality_witness :
  exists td w' t,
    setup (TS.useEventer (Many [0; 1]) (Many ["click"; "hover"]%string)
                         sample_callback [] each_options) sample_world
    = (Normal td, w', t)
    /\ registrations t
       = [(10, "click", 50); (10, "hover", 50);
          (11, "click", 50); (11, "hover", 50)]%string.
Proof.
  destruct (broadcast_cardinality (Many [0; 1]) (Many ["click"; "hover"]%string)
              sample_callback [] each_options sample_world eq_refl)
    as (td & w' & t & Hrun & Hreg & _).
  exists td, w', t. split; [exact Hrun | exact Hreg].
Defined.

(** C6, as the code has it.  Under PAIRED with as many targets as event
    types, setup completes and walks the indices once: the registrations are
    the index-aligned pairs [(targets[i], eventTypes[i])] whose target is
    present, in index order, so their number is the common length minus the
    number of absent targets, and no target is bound to the event type of
    another index. *)
Theorem paired_cardinality (ref : OneOrMany RefObject)
        (event : OneOrMany string) (callback : nat -> Handler)
        (dependencies : list nat) (options : HookOptions) (w : World) :
  is_paired options = true ->
  length (toArray ref) = length (toArray event) ->
  exists td w' t,
    setup (TS.useEventer ref event callback dependencies options) w
    = (Normal td, w', t)
    /\ registrations t
       = resolved_pairs (cycle_handler callback w)
                        (combine (resolve w ref) (toArray event))
    /\ length (registrations t) + absent (resolve w ref)
       = length (toArray ref)
    /\ (forall n e h,
        In (n, e, h) (registrations t)
        <-> h = cycle_handler callback w
            /\ exists i, nth_error (resolve w ref) i = Some (Some n)
                         /\ nth_error (toArray event) i = Some e).
Proof.
  intros Hp Hlen.
  assert (Hm : counts_mismatch options ref event = false).
  { unfold counts_mismatch. rewrite Hp, Hlen, Nat.eqb_refl. reflexivity. }
  assert (Hlen' : length (resolve w ref) = length (toArray event))
    by (unfold resolve; now rewrite length_map).
  pose proof (setup_ts_runs ref event callback dependencies options w Hm) as Hr.
  pose proof (registrations_setup_calls options callback ref event w Hm) as Hreg.
  rewrite Hp in Hreg.
  eexists _, _, _. split; [exact Hr|]. split; [exact Hreg|]. split.
  - rewrite Hreg.
    pose proof (resolved_pairs_count (cycle_handler callback w)
                  (combine (resolve w ref) (toArray event))) as Hc.
    rewrite absent_pairs_combine, length_combine in Hc by exact Hlen'.
    rewrite Hlen' in Hc. lia.
  - intros n e h. rewrite Hreg, in_resolved_pairs, in_combine_index.
    reflexivity.
Qed.

(** Scenario C: X-click and Y-hover, nothing else. *)
Lemma paired_cardinality_witness :
  exists td w' t,
    setup (TS.useEventer (Many [0; 1]) (Many ["click"; "hover"]%string)
                         sample_callback [] paired_options) sample_world
    = (Normal td, w', t)
    /\ registrations t = [(10, "click", 50); (11, "hover", 50)]%string.
Proof.
  destruct (paired_cardinality (Many [0; 1]) (Many ["click"; "hover"]%string)
              sample_callback [] paired_options sample_world
              eq_refl eq_refl)
    as (td & w' & t & Hrun & Hreg & _).
  exists td, w', t. split; [exact Hrun | exact Hreg].
Defined.

(** A PAIRED setup with matching counts (one target, one event type) whose
    target ref is empty performs no registration at all, not one. *)
Lemma paired_cardinality_counterexample :
  is_paired paired_options = true
  /\ length (toArray (One 5)) = length (toArray (One "click"%string))
  /\ length (registrations
               (snd (setup (TS.useEventer (One 5) (One "click"%string)
                                          sample_callback [] paired_options)
                           sample_world)))
     <> length (toArray (One 5)).
Proof. repeat split. simpl. discriminate. Qed.

(** ** Handler invocations during setup *)

Lemma invocations_prologue (once : bool) (h : Handler) (c : AbortSignal) :
  invocations (prologue once h c) = if once then [(h, None)] else [].
Proof. destruct once; reflexivity. Qed.

Lemma invocations_bind_calls (each : bool) (h : Handler)
      (o : AddEventListenerOptions) (node : option Node) (evt : string) :
  invocations (bind_calls each h o node evt)
  = if each then [(h, None)] else [].
Proof. destruct each, node; reflexivity. Qed.

Lemma length_flat_map_const {A B : Type} (f : A -> list B) (k : nat)
      (xs : list A) :
  (forall x, length (f x) = k) -> length (flat_map f xs) = length xs * k.
Proof.
  intros Hf. induction xs as [|x xs IH]; simpl; [reflexivity|].
  rewrite length_app, Hf, IH. reflexivity.
Qed.

(** Each pass of a loop body invokes the handler once when the flag is set,
    whether or not the target is there. *)
Lemma invocations_bind_loop (paired each : bool) (h : Handler)
      (o : AddEventListenerOptions) (nodes : list (option Node))
      (events : list string) :
  length (invocations (bind_loop paired each h o nodes events))
  = (if paired then length nodes else length nodes * length events)
    * (if each then 1 else 0).
Proof.
  assert (Hone : forall node evt,
             length (invocations (bind_calls each h o node evt))
             = if each then 1 else 0)
    by (intros; rewrite invocations_bind_calls; now destruct each).
  unfold bind_loop, paired_bind_calls, broadcast_bind_calls.
  destruct paired; rewrite invocations_flat_map.
  - rewrite length_flat_map_const with (k := if each then 1 else 0).
    + now rewrite length_seq.
    + intros i. apply Hone.
  - rewrite length_flat_map_const
      with (k := length events * (if each then 1 else 0)).
    + apply Nat.mul_assoc.
    + intros node. rewrite invocations_flat_map.
      apply length_flat_map_const. intros evt. apply Hone.
Qed.

Lemma preceded_bind_calls (h : Handler) (o : AddEventListenerOptions)
      (node : option Node) (evt : string) (rest : list Call) :
  (forall prev, preceded_by_call prev rest = true) ->
  forall prev,
    preceded_by_call prev (bind_calls true h o node evt ++ rest) = true.
Proof.
  intros Hrest prev. destruct node as [n|]; simpl.
  - rewrite Nat.eqb_refl. apply Hrest.
  - apply Hrest.
Qed.

Lemma preceded_flat_map {A : Type} (f : A -> list Call) (xs : list A)
      (rest : list Call) :
  (forall x tail, (forall prev, preceded_by_call prev tail = true) ->
                  forall prev, preceded_by_call prev (f x ++ tail) = true) ->
  (forall prev, preceded_by_call prev rest = true) ->
  forall prev, preceded_by_call prev (flat_map f xs ++ rest) = true.
Proof.
  intros Hf Hrest. induction xs as [|x xs IH]; simpl; [exact Hrest|].
  intros prev. rewrite <- app_assoc. apply Hf. exact IH.
Qed.

Lemma preceded_bind_loop (paired : bool) (h : Handler)
      (o : AddEventListenerOptions) (nodes : list (option Node))
      (events : list string) (prev : option Call) :
  preceded_by_call prev (bind_loop paired true h o nodes events) = true.
Proof.
  rewrite <- (app_nil_r (bind_loop _ _ _ _ _ _)). revert prev.
  unfold bind_loop, paired_bind_calls, broadcast_bind_calls.
  destruct paired; apply preceded_flat_map; try reflexivity.
  - intros i tail Htail. now apply preceded_bind_calls.
  - intros node tail Htail. apply preceded_flat_map; [|exact Htail].
    intros evt tail' Htail'. now apply preceded_bind_calls.
Qed.

(** C2, as the code has it.  With the call-per-binding flag set, every pass
    of the registration loop invokes the handler, with no argument, before
    it tries to register its pair: the invocations of a setup number one per
    pair of the binding matrix (plus the call-once invocation, if any),
    absent targets included, so they exceed the registrations by the number
    of pairs whose target is absent; and every registration comes right
    after an invocation of the handler. *)
Theorem call_per_binding (ref : OneOrMany RefObject)
        (event : OneOrMany string) (callback : nat -> Handler)
        (dependencies : list nat) (options : HookOptions) (w : World) :
  calls_on_each options = true ->
  counts_mismatch options ref event = false ->
  exists td w' t,
    setup (TS.useEventer ref event callback dependencies options) w
    = (Normal td, w', t)
    /\ length (invocations t)
       = (if calls_once options then 1 else 0)
         + (if is_paired options then length (toArray ref)
            else length (toArray ref) * length (toArray event))
    /\ length (invocations t)
       = (if calls_once options then 1 else 0)
         + length (registrations t)
         + (if is_paired options then absent (resolve w ref)
            else absent (resolve w ref) * length (toArray event))
    /\ (forall a, In a (invocations t) -> a = (cycle_handler callback w, None))
    /\ preceded_by_call None t = true.
Proof.
  intros Heach Hm.
  pose proof (setup_ts_runs ref event callback dependencies options w Hm) as Hr.
  pose proof (registrations_setup_calls options callback ref event w Hm) as Hreg.
  eexists _, _, _. split; [exact Hr|].
  assert (Hinv : length (invocations (setup_calls options callback ref event w))
                 = (if calls_once options then 1 else 0)
                   + (if is_paired options then length (toArray ref)
                      else length (toArray ref) * length (toArray event))).
  { unfold setup_calls. rewrite invocations_app, length_app.
    rewrite invocations_prologue, invocations_bind_loop, Heach.
    unfold resolve. rewrite length_map, Nat.mul_1_r.
    now destruct (calls_once options). }
  split; [exact Hinv|]. split; [|split].
  - rewrite Hinv, Hreg.
    pose proof (resolved_pairs_count (cycle_handler callback w)
                  (if is_paired options
                   then combine (resolve w ref) (toArray event)
                   else list_prod (resolve w ref) (toArray event))) as Hc.
    unfold counts_mismatch in Hm.
    assert (Hres : length (resolve w ref) = length (toArray ref))
      by (unfold resolve; apply length_map).
    destruct (is_paired options); simpl in Hm.
    + assert (Hlen : length (toArray ref) = length (toArray event))
        by (apply Nat.eqb_eq; now destruct (Nat.eqb _ _)).
      rewrite absent_pairs_combine, length_combine in Hc by congruence.
      rewrite Hres, <- Hlen, Nat.min_id in Hc. lia.
    + rewrite absent_pairs_prod, length_prod, Hres in Hc. lia.
  - intros a. unfold setup_calls, bind_loop, paired_bind_calls,
      broadcast_bind_calls.
    rewrite invocations_app, invocations_prologue, in_app_iff.
    intros [Hin|Hin].
    + destruct (calls_once options); simpl in Hin; [|contradiction].
      now destruct Hin.
    + destruct (is_paired options); rewrite invocations_flat_map in Hin;
        apply in_flat_map in Hin as [x [_ Hin]].
      * rewrite invocations_bind_calls in Hin.
        destruct (calls_on_each options); simpl in Hin; [|contradiction].
        now destruct Hin.
      * rewrite invocations_flat_map in Hin.
        apply in_flat_map in Hin as [y [_ Hin]].
        rewrite invocations_bind_calls in Hin.
        destruct (calls_on_each options); simpl in Hin; [|contradiction].
        now destruct Hin.
  - unfold setup_calls, prologue. rewrite Heach.
    destruct (calls_once options); simpl; apply preceded_bind_loop.
Qed.

(** Two populated targets under BROADCAST with two event types. *)
Lemma call_per_binding_witness :
  exists td w' t,
    setup (TS.useEventer (Many [0; 1]) (Many ["click"; "hover"]%string)
                         sample_callback [] each_options) sample_world
    = (Normal td, w', t)
    /\ length (invocations t) = 4
    /\ preceded_by_call None t = true.
Proof.
  destruct (call_per_binding (Many [0; 1]) (Many ["click"; "hover"]%string)
              sample_callback [] each_options sample_world eq_refl eq_refl)
    as (td & w' & t & Hrun & Hinv & _ & _ & Hprec).
  exists td, w', t. repeat split; [exact Hrun | exact Hinv | exact Hprec].
Defined.

(** With the call-per-binding flag set and one target whose ref is empty,
    setup invokes the handler once although it registers nothing. *)
Lemma call_per_binding_counterexample :
  calls_on_each each_options = true
  /\ length (invocations
               (snd (setup (TS.useEventer (One 5) (One "click"%string)
                                          sample_callback [] each_options)
                           sample_world)))
     <> length (registrations
                  (snd (setup (TS.useEventer (One 5) (One "click"%string)
                                             sample_callback [] each_options)
                              sample_world)))
  /\ length (invocations
               (snd (setup (TS.useEventer (One 5) (One "click"%string)
                                          sample_callback [] each_options)
                           sample_world))) = 1
  /\ length (registrations
               (snd (setup (TS.useEventer (One 5) (One "click"%string)
                                          sample_callback [] each_options)
                           sample_world))) = 0.
Proof. repeat split. simpl. discriminate. Qed.

(** ** The handler instance and the call-once flag *)

Lemma factory_invocations_app (t1 t2 : list Call) :
  factory_invocations (t1 ++ t2)
  = factory_invocations t1 + factory_invocations t2.
Proof.
  induction t1 as [|c t1 IH]; simpl; [reflexivity|].
  destruct c; simpl; rewrite IH; reflexivity.
Qed.

Lemma factory_invocations_bind_loop (paired each : bool) (h : Handler)
      (o : AddEventListenerOptions) (nodes : list (option Node))
      (events : list string) :
  factory_invocations (bind_loop paired each h o nodes events) = 0.
Proof.
  assert (Hflat : forall (A : Type) (f : A -> list Call) (xs : list A),
             (forall x, factory_invocations (f x) = 0) ->
             factory_invocations (flat_map f xs) = 0).
  { intros A f xs Hf. induction xs as [|x xs IH]; simpl; [reflexivity|].
    now rewrite factory_invocations_app, Hf, IH. }
  assert (Hone : forall node evt,
             factory_invocations (bind_calls each h o node evt) = 0)
    by (intros [n|] evt; destruct each; reflexivity).
  unfold bind_loop, paired_bind_calls, broadcast_bind_calls.
  destruct paired; apply Hflat; intros x; [apply Hone|].
  apply Hflat. apply Hone.
Qed.

Lemma factory_calls_apply_calls (t : list Call) (w : World) :
  factory_calls (apply_calls t w) = factory_calls w + factory_invocations t.
Proof.
  revert w. induction t as [|c t IH]; intros w; simpl; [lia|].
  unfold apply_calls in *. simpl. rewrite IH.
  destruct c; simpl; try lia.
  unfold dom_add. destruct (is_aborted w (signal_value o)); [lia|].
  destruct (existsb _ _); simpl; lia.
Qed.

Lemma factory_invocations_setup_calls (options : HookOptions)
      (callback : nat -> Handler) (ref : OneOrMany RefObject)
      (event : OneOrMany string) (w : World) :
  factory_invocations (setup_calls options callback ref event w) = 1.
Proof.
  unfold setup_calls. rewrite factory_invocations_app.
  rewrite factory_invocations_bind_loop.
  now destruct (calls_once options).
Qed.

(** C7.  A setup that completes has called the callback factory exactly
    once; the handler it returned is the one every registration of the cycle
    carries.  With the call-once flag set, the trace is that of the same
    setup without the flag with one call [handler()], no argument, inserted
    right after the factory call, hence before every registration, whatever
    the number of bindings; without call-per-binding it is the only
    invocation. *)
Theorem handler_instance_and_call_once (ref : OneOrMany RefObject)
        (event : OneOrMany string) (callback : nat -> Handler)
        (dependencies : list nat) (options : HookOptions) (w : World) :
  counts_mismatch options ref event = false ->
  exists td w' t,
    setup (TS.useEventer ref event callback dependencies options) w
    = (Normal td, w', t)
    /\ factory_invocations t = 1
    /\ factory_calls w' = S (factory_calls w)
    /\ (forall n e h, In (n, e, h) (registrations t) ->
                      h = cycle_handler callback w)
    /\ (calls_once options = true ->
        exists tail,
          t = CallFactory :: CallHandler (cycle_handler callback w) None :: tail
          /\ snd (setup (TS.useEventer ref event callback dependencies
                                       (without_call_once options)) w)
             = CallFactory :: tail
          /\ (calls_on_each options = false ->
              invocations t = [(cycle_handler callback w, None)])).
Proof.
  intros Hm.
  pose proof (setup_ts_runs ref event callback dependencies options w Hm) as Hr.
  pose proof (registrations_setup_calls options callback ref event w Hm) as Hreg.
  eexists _, _, _. split; [exact Hr|]. split; [|split; [|split]].
  - apply factory_invocations_setup_calls.
  - rewrite factory_calls_apply_calls, factory_invocations_setup_calls. lia.
  - intros n e h. rewrite Hreg, in_resolved_pairs. tauto.
  - intros Honce.
    exists ([NewAbortController (cycle_signal w)]
            ++ bind_loop (is_paired options) (calls_on_each options)
                 (cycle_handler callback w)
                 (merge_options (cycle_signal w) (listener_options options))
                 (resolve w ref) (toArray event)).
    split; [|split].
    + unfold setup_calls, prologue. rewrite Honce. reflexivity.
    + assert (Hm' : counts_mismatch (without_call_once options) ref event
                    = false) by exact Hm.
      pose proof (setup_ts_runs ref event callback dependencies
                    (without_call_once options) w Hm') as Hr'.
      unfold runs in Hr'. rewrite Hr'. reflexivity.
    + intros Heach. unfold setup_calls.
      rewrite invocations_app, invocations_prologue, Honce.
      assert (Hnil : forall l : list (Handler * option string),
                 length l = 0 -> l = [])
        by (intros [|x l]; [reflexivity | discriminate]).
      rewrite (Hnil (invocations (bind_loop _ _ _ _ _ _))); [reflexivity|].
      rewrite invocations_bind_loop, Heach. apply Nat.mul_0_r.
Qed.

(** Scenario E, and the same with nothing to bind. *)
Lemma handler_instance_and_call_once_witness :
  (exists td w' t,
      setup (TS.useEventer (One 0) (One "click"%string) sample_callback []
                           once_options) sample_world
      = (Normal td, w', t)
      /\ factory_invocations t = 1 /\ invocations t = [(50, None)])
  /\ (exists td w' t,
         setup (TS.useEventer (Many []) (Many []) sample_callback []
                              once_options) sample_world
         = (Normal td, w', t)
         /\ factory_invocations t = 1 /\ invocations t = [(50, None)]).
Proof.
  split.
  - destruct (handler_instance_and_call_once (One 0) (One "click"%string)
                sample_callback [] once_options sample_world eq_refl)
      as (td & w' & t & Hrun & Hfac & _ & _ & Honce).
    destruct (Honce eq_refl) as (tail & _ & _ & Hinv).
    exists td, w', t. repeat split;
      [exact Hrun | exact Hfac | exact (Hinv eq_refl)].
  - destruct (handler_instance_and_call_once (Many []) (Many [])
                sample_callback [] once_options sample_world eq_refl)
      as (td & w' & t & Hrun & Hfac & _ & _ & Honce).
    destruct (Honce eq_refl) as (tail & _ & _ & Hinv).
    exists td, w', t. repeat split;
      [exact Hrun | exact Hfac | exact (Hinv eq_refl)].
Defined.

(** ** The listener store under a trace *)

Lemma same_listener_fields (n : Node) (evt : string) (h : Handler) (cap : bool)
      (l : Listener) :
  same_listener n evt h cap l = true
  <-> l_target l = n /\ l_type l = evt /\ l_callback l = h /\ l_capture l = cap.
Proof.
  unfold same_listener.
  rewrite !andb_true_iff, !Nat.eqb_eq, String.eqb_eq, Bool.eqb_true_iff.
  tauto.
Qed.

Lemma in_dispatch (n : Node) (evt : string) (h : Handler) (w : World) :
  In h (dispatch n evt w)
  <-> exists l, In l (listeners w)
                /\ l_target l = n /\ l_type l = evt /\ l_callback l = h.
Proof.
  unfold dispatch. rewrite in_map_iff. split.
  - intros [l [Hh Hin]]. apply filter_In in Hin as [Hin Hm].
    apply andb_true_iff in Hm as [Hn He].
    apply Nat.eqb_eq in Hn. apply String.eqb_eq in He. eauto.
  - intros [l (Hin & Hn & He & Hh)]. exists l. split; [exact Hh|].
    apply filter_In. split; [exact Hin|].
    now rewrite Hn, He, Nat.eqb_refl, String.eqb_refl.
Qed.

(** A listener found after one call was there before or was added by it. *)
Lemma listeners_apply_call (c : Call) (w : World) (l : Listener) :
  In l (listeners (apply_call c w)) ->
  In l (listeners w)
  \/ exists n evt h o,
      c = AddListener n evt h o
      /\ l = mkListener n evt h (with_default false (capture o))
                        (with_default false (once o))
                        (with_default false (passive o)) (signal_value o).
Proof.
  destruct c; simpl; auto.
  - unfold dom_add. destruct (is_aborted w (signal_value o)); [auto|].
    destruct (existsb _ _); [auto|]. simpl. rewrite in_app_iff. simpl.
    intros [Hin|[<-|[]]]; [auto|]. right. now exists n, evt, h, o.
  - intros Hin. apply filter_In in Hin. tauto.
  - intros Hin. apply filter_In in Hin. tauto.
Qed.

Lemma listeners_apply_calls (t : list Call) (w : World) (l : Listener) :
  In l (listeners (apply_calls t w)) ->
  In l (listeners w)
  \/ exists n evt h o,
      In (AddListener n evt h o) t
      /\ l = mkListener n evt h (with_default false (capture o))
                        (with_default false (once o))
                        (with_default false (passive o)) (signal_value o).
Proof.
  revert w. induction t as [|c t IH]; intros w Hin; [auto|].
  change (apply_calls (c :: t) w) with (apply_calls t (apply_call c w)) in Hin.
  apply IH in Hin as [Hin|(n & evt & h & o & Hin & ->)].
  - apply listeners_apply_call in Hin as [Hin|(n & evt & h & o & -> & ->)];
      [auto|]. right. exists n, evt, h, o. simpl. auto.
  - right. exists n, evt, h, o. simpl. auto.
Qed.

(** Without a bind, listeners can only disappear. *)
Lemma listeners_never_binds (t : list Call) (w : World) (l : Listener) :
  never_binds t = true ->
  In l (listeners (apply_calls t w)) -> In l (listeners w).
Proof.
  intros Hnb Hin. apply listeners_apply_calls in Hin as [Hin|Hadd]; [exact Hin|].
  destruct Hadd as (n & evt & h & o & Hin & _).
  unfold never_binds in Hnb. rewrite forallb_forall in Hnb.
  specialize (Hnb _ Hin). discriminate.
Qed.

(** A removal is final as long as nothing binds afterwards. *)
Lemma removal_is_effective (t : list Call) (w : World) (n : Node)
      (evt : string) (h : Handler) (l : Listener) :
  never_binds t = true ->
  In (RemoveListener n evt h) t ->
  In l (listeners (apply_calls t w)) ->
  same_listener n evt h false l = false.
Proof.
  revert w. induction t as [|c t IH]; intros w Hnb Hrem Hin; [contradiction|].
  change (apply_calls (c :: t) w) with (apply_calls t (apply_call c w)) in Hin.
  simpl in Hnb. apply andb_true_iff in Hnb as [Hc Hnb].
  destruct Hrem as [->|Hrem].
  - apply (listeners_never_binds _ _ _ Hnb) in Hin. simpl in Hin.
    apply filter_In in Hin as [_ Hneg]. now apply negb_true_iff.
  - exact (IH _ Hnb Hrem Hin).
Qed.

(** While a trace only binds, the aborted signals stay as they were and
    listeners stay where they are. *)
Lemma aborted_only_binds (t : list Call) (w : World) :
  only_binds t = true -> aborted (apply_calls t w) = aborted w.
Proof.
  revert w. induction t as [|c t IH]; intros w Hob; [reflexivity|].
  change (apply_calls (c :: t) w) with (apply_calls t (apply_call c w)).
  simpl in Hob. apply andb_true_iff in Hob as [Hc Hob]. rewrite (IH _ Hob).
  destruct c; simpl; try reflexivity; try discriminate.
  unfold dom_add. destruct (is_aborted w (signal_value o)); [reflexivity|].
  destruct (existsb _ _); reflexivity.
Qed.

Lemma listeners_only_binds_call (c : Call) (w : World) (l : Listener) :
  only_binds [c] = true ->
  In l (listeners w) -> In l (listeners (apply_call c w)).
Proof.
  destruct c; simpl; try discriminate; auto.
  intros _ Hin. unfold dom_add. destruct (is_aborted w (signal_value o)); [auto|].
  destruct (existsb _ _); [auto|]. simpl. apply in_or_app. auto.
Qed.

Lemma listeners_only_binds (t : list Call) (w : World) (l : Listener) :
  only_binds t = true ->
  In l (listeners w) -> In l (listeners (apply_calls t w)).
Proof.
  revert w. induction t as [|c t IH]; intros w Hob Hin; [exact Hin|].
  change (apply_calls (c :: t) w) with (apply_calls t (apply_call c w)).
  simpl in Hob. apply andb_true_iff in Hob as [Hc Hob].
  apply (IH _ Hob). apply listeners_only_binds_call; [|exact Hin].
  simpl. now rewrite Hc.
Qed.

(** A bind whose signal is live takes effect and lasts while the trace only
    binds. *)
Lemma bind_is_effective (t : list Call) (w : World) (n : Node) (evt : string)
      (h : Handler) (o : AddEventListenerOptions) :
  only_binds t = true ->
  In (AddListener n evt h o) t ->
  is_aborted w (signal_value o) = false ->
  exists l, In l (listeners (apply_calls t w))
            /\ same_listener n evt h (with_default false (capture o)) l = true.
Proof.
  revert w. induction t as [|c t IH]; intros w Hob Hadd Hlive; [contradiction|].
  change (apply_calls (c :: t) w) with (apply_calls t (apply_call c w)).
  pose proof Hob as Hob'. simpl in Hob'.
  apply andb_true_iff in Hob' as [Hc Hobt].
  destruct Hadd as [->|Hadd].
  - assert (Hnow : exists l, In l (listeners (dom_add n evt h o w))
                             /\ same_listener n evt h
                                  (with_default false (capture o)) l = true).
    { unfold dom_add. rewrite Hlive.
      destruct (existsb _ (listeners w)) eqn:Hex.
      - apply existsb_exists in Hex. exact Hex.
      - eexists. split; [simpl; apply in_or_app; right; left; reflexivity|].
        apply same_listener_fields. simpl. auto. }
    destruct Hnow as [l [Hin Hsame]]. exists l. split; [|exact Hsame].
    apply listeners_only_binds; assumption.
  - apply (IH _ Hobt Hadd).
    unfold is_aborted in *.
    change (apply_call c w) with (apply_calls [c] w).
    rewrite aborted_only_binds; [exact Hlive|]. simpl. now rewrite Hc.
Qed.

(** *** What the setup trace contains *)

Lemma in_bind_loop (paired each : bool) (h : Handler)
      (o : AddEventListenerOptions) (nodes : list (option Node))
      (events : list string) (c : Call) :
  In c (bind_loop paired each h o nodes events) ->
  c = CallHandler h None \/ exists n evt, c = AddListener n evt h o.
Proof.
  assert (Hone : forall node evt, In c (bind_calls each h o node evt) ->
             c = CallHandler h None \/ exists n e, c = AddListener n e h o).
  { intros node evt. unfold bind_calls. rewrite in_app_iff.
    intros [Hin|Hin].
    - destruct each; simpl in Hin; [|contradiction]. destruct Hin as [<-|[]].
      now left.
    - destruct node as [n|]; simpl in Hin; [|contradiction].
      destruct Hin as [<-|[]]. right. now exists n, evt. }
  unfold bind_loop, paired_bind_calls, broadcast_bind_calls.
  destruct paired; intros Hin; apply in_flat_map in Hin as [x [_ Hin]].
  - exact (Hone _ _ Hin).
  - apply in_flat_map in Hin as [y [_ Hin]]. exact (Hone _ _ Hin).
Qed.

Lemma in_setup_calls (options : HookOptions) (callback : nat -> Handler)
      (ref : OneOrMany RefObject) (event : OneOrMany string) (w : World)
      (c : Call) :
  In c (setup_calls options callback ref event w) ->
  c = CallFactory \/ c = NewAbortController (cycle_signal w)
  \/ c = CallHandler (cycle_handler callback w) None
  \/ exists n evt,
      c = AddListener n evt (cycle_handler callback w)
            (merge_options (cycle_signal w) (listener_options options)).
Proof.
  unfold setup_calls, prologue. rewrite in_app_iff. intros [Hin|Hin].
  - destruct Hin as [<-|Hin]; [auto|]. apply in_app_iff in Hin as [Hin|Hin].
    + destruct (calls_once options); simpl in Hin; [|contradiction].
      destruct Hin as [<-|[]]. auto.
    + destruct Hin as [<-|[]]. auto.
  - apply in_bind_loop in Hin as [->|Hadd]; auto.
Qed.

Lemma only_binds_setup_calls (options : HookOptions) (callback : nat -> Handler)
      (ref : OneOrMany RefObject) (event : OneOrMany string) (w : World) :
  only_binds (setup_calls options callback ref event w) = true.
Proof.
  unfold only_binds. apply forallb_forall. intros c Hin.
  apply in_setup_calls in Hin as [->|[->|[->|(n & evt & ->)]]]; reflexivity.
Qed.

Lemma in_registrations (t : list Call) (n : Node) (evt : string) (h : Handler) :
  In (n, evt, h) (registrations t) <-> exists o, In (AddListener n evt h o) t.
Proof.
  induction t as [|c t IH]; simpl.
  - split; [contradiction | intros [o []]].
  - destruct c; simpl; rewrite ?IH;
      try (split; [intros [o Hin]; exists o; auto
                  | intros [o [Hc|Hin]]; [discriminate | now exists o]]).
    split.
    + intros [Heq|[o' Hin]]; [inversion Heq; subst; exists o; auto
                             | exists o'; auto].
    + intros [o' [Heq|Hin]]; [inversion Heq; subst; auto | right; now exists o'].
Qed.

Lemma in_deregistrations (t : list Call) (n : Node) (evt : string)
      (h : Handler) :
  In (n, evt, h) (deregistrations t) <-> In (RemoveListener n evt h) t.
Proof.
  induction t as [|c t IH]; simpl; [reflexivity|].
  destruct c; simpl; rewrite ?IH;
    try (split; [auto | intros [Hc|Hin]; [discriminate | exact Hin]]).
  split.
  - intros [Heq|Hin]; [inversion Heq; subst; auto | auto].
  - intros [Heq|Hin]; [inversion Heq; subst; auto | auto].
Qed.

(** ** Running the cleanup closures *)

Lemma runs_ts_teardown (paired : bool) (lo : AddEventListenerOptions)
      (c : AbortSignal) (nodes : list (option Node)) (events : list string)
      (h : Handler) (w : World) :
  runs (ts_teardown paired lo c nodes events h) w tt
       (ts_teardown_calls paired lo c nodes events h).
Proof.
  unfold ts_teardown, ts_teardown_calls, TS.cleanup.
  destruct paired; [apply runs_emit|].
  destruct (signal_value lo); simpl; [apply runs_broadcast_unbind | apply runs_emit].
Qed.

Lemma runs_js_cleanup (paired : bool) (lo : AddEventListenerOptions)
      (c : AbortSignal) (nodes : list (option Node)) (events : list string)
      (h : Handler) (w : World) :
  runs (JS.cleanup paired lo c nodes events h) w tt
       (js_teardown_calls paired lo c nodes events h).
Proof.
  unfold js_teardown_calls, JS.cleanup.
  destruct (signal_value lo); simpl; [|apply runs_emit].
  destruct paired; [apply runs_paired_unbind | apply runs_broadcast_unbind].
Qed.

Lemma runs_variant_teardown (paired : bool) (lo : AddEventListenerOptions)
      (c : AbortSignal) (refs : list RefObject) (events : list string)
      (h : Handler) (w : World) :
  runs (variant_teardown paired lo c refs events h) w tt
       (variant_teardown_calls paired lo c (map (current w) refs) events h).
Proof.
  unfold variant_teardown, variant_teardown_calls, Variant.cleanup.
  destruct paired; [apply runs_emit|].
  destruct (signal_value lo); simpl; [|apply runs_emit].
  unfold broadcast_unbind_calls. rewrite flat_map_map.
  apply (runs_for_of
           (fun cur rf => flat_map (unbind_calls h (cur rf)) events)).
  intros rf w'.
  apply (runs_for_of (fun cur evt => unbind_calls h (cur rf) evt)).
  intros evt w''.
  eapply runs_bind_silent; [apply (runs_optional_current (Some rf))|].
  apply runs_optional_remove.
Qed.

Lemma run_abort (c : AbortSignal) (w : World) :
  apply_calls [Abort c] w = dom_abort c w.
Proof. reflexivity. Qed.

Lemma not_aborted (w : World) (s : AbortSignal) :
  ~ In s (aborted w) -> is_aborted w (Some s) = false.
Proof.
  intros Hnot. simpl. destruct (existsb _ _) eqn:Hex; [|reflexivity].
  apply existsb_exists in Hex as [s' [Hin Heq]].
  apply Nat.eqb_eq in Heq. subst. contradiction.
Qed.

Lemma in_dom_abort (c : AbortSignal) (w : World) (l : Listener) :
  In l (listeners (dom_abort c w))
  <-> In l (listeners w) /\ l_signal l <> Some c.
Proof.
  simpl. rewrite filter_In, negb_true_iff. unfold has_signal.
  destruct (l_signal l) as [s|].
  - destruct (Nat.eqb_spec s c); subst; split; intros [Hin Hs];
      (split; [exact Hin|]); congruence.
  - split; intros [Hin _]; (split; [exact Hin|]); congruence.
Qed.

(** ** Teardown on the default path *)




(** ** Teardown never fails *)

(** C9.  Whenever setup has completed, the teardown it returned completes
    normally in every world, whatever the refs hold by then. *)
Theorem teardown_never_throws (ref : OneOrMany RefObject)
        (event : OneOrMany string) (callback : nat -> Handler)
        (dependencies : list nat) (options : HookOptions) (w : World)
        (td : Destructor) (w1 : World) (t1 : list Call) :
  setup (TS.useEventer ref event callback dependencies options) w
  = (Normal td, w1, t1) ->
  forall w2, exists w3 t3, td w2 = (Normal tt, w3, t3).
Proof.
  intros Hrun w2.
  destruct (counts_mismatch options ref event) eqn:Hm.
  - rewrite setup_ts_throws in Hrun by exact Hm. discriminate.
  - pose proof (setup_ts_runs ref event callback dependencies options w Hm)
      as Hr.
    unfold runs in Hr. rewrite Hr in Hrun. inversion Hrun; subst td.
    eexists _, _. apply runs_ts_teardown.
Qed.

(** Empty refs at setup and at teardown, caller's signal, BROADCAST. *)
Lemma teardown_never_throws_witness :
  exists w3 t3,
    ts_teardown false (listener_options (custom_signal_options false)) 100
                [Some 10; None] ["click"%string] 50
                (set_current (fun _ => None) sample_world)
    = (Normal tt, w3, t3).
Proof.
  eapply (teardown_never_throws (Many [0; 5]) (One "click"%string)
            sample_callback [] (custom_signal_options false) sample_world).
  reflexivity.
Defined.

(** ** Teardown with a caller-supplied signal *)

Lemma deregistrations_unbind_calls (h : Handler) (node : option Node)
      (evt : string) :
  deregistrations (unbind_calls h node evt)
  = match node with Some n => [(n, evt, h)] | None => [] end.
Proof. destruct node; reflexivity. Qed.

(** The removal loops walk the pairs the registration loops walked. *)
Lemma unbind_mirrors_bind (paired each : bool) (h : Handler)
      (o : AddEventListenerOptions) (nodes : list (option Node))
      (events : list string) :
  deregistrations (if paired then paired_unbind_calls h nodes events
                   else broadcast_unbind_calls h nodes events)
  = registrations (bind_loop paired each h o nodes events).
Proof.
  unfold bind_loop, paired_unbind_calls, paired_bind_calls,
    broadcast_unbind_calls, broadcast_bind_calls.
  destruct paired;
    rewrite deregistrations_flat_map, registrations_flat_map;
    apply flat_map_ext; intros x.
  - now rewrite deregistrations_unbind_calls, registrations_bind_calls.
  - rewrite deregistrations_flat_map, registrations_flat_map.
    apply flat_map_ext. intros evt.
    now rewrite deregistrations_unbind_calls, registrations_bind_calls.
Qed.

Lemma deregistrations_broadcast (h : Handler) (nodes : list (option Node))
      (events : list string) :
  deregistrations (broadcast_unbind_calls h nodes events)
  = resolved_pairs h (list_prod nodes events).
Proof.
  rewrite <- (registrations_broadcast false h empty_listener_options).
  apply (unbind_mirrors_bind false).
Qed.

Lemma never_binds_unbind (paired : bool) (h : Handler)
      (nodes : list (option Node)) (events : list string) :
  never_binds (if paired then paired_unbind_calls h nodes events
               else broadcast_unbind_calls h nodes events) = true.
Proof.
  assert (Hone : forall c node evt, In c (unbind_calls h node evt) ->
             exists n, c = RemoveListener n evt h).
  { intros c [n|] evt; simpl; [|contradiction].
    intros [<-|[]]. now exists n. }
  unfold never_binds. apply forallb_forall. intros c Hin.
  unfold paired_unbind_calls, broadcast_unbind_calls in Hin.
  destruct paired; apply in_flat_map in Hin as [x [_ Hin]].
  - apply Hone in Hin as [n ->]. reflexivity.
  - apply in_flat_map in Hin as [y [_ Hin]].
    apply Hone in Hin as [n ->]. reflexivity.
Qed.

Lemma registrations_setup_calls_loop (options : HookOptions)
      (callback : nat -> Handler) (ref : OneOrMany RefObject)
      (event : OneOrMany string) (w : World) :
  registrations (setup_calls options callback ref event w)
  = registrations
      (bind_loop (is_paired options) (calls_on_each options)
                 (cycle_handler callback w)
                 (merge_options (cycle_signal w) (listener_options options))
                 (resolve w ref) (toArray event)).
Proof.
  unfold setup_calls. now rewrite registrations_app, registrations_prologue.
Qed.

(** X13. The JavaScript build: with a caller-supplied signal, under either
    topology, teardown removes, pair by pair and in the order of
    registration, exactly what setup registered; afterwards none of those
    pairs has a (non-capture) listener for the handler left. *)
Lemma js_teardown_removes_every_pair (ref : OneOrMany RefObject)
      (event : OneOrMany string) (callback : nat -> Handler)
      (dependencies : list nat) (options : HookOptions) (w : World)
      (s : AbortSignal) :
  custom_signal options = Some s ->
  counts_mismatch options ref event = false ->
  exists td w1 t1,
    setup (JS.useEventer ref event callback dependencies options) w
    = (Normal td, w1, t1)
    /\ forall w2, exists w3 t3,
        td w2 = (Normal tt, w3, t3)
        /\ deregistrations t3 = registrations t1
        /\ forall n e h l,
            In (n, e, h) (registrations t1) -> In l (listeners w3) ->
            same_listener n e h false l = false.
Proof.
  intros Hsig Hm.
  pose proof (setup_js_runs ref event callback dependencies options w Hm) as Hr.
  eexists _, _, _. split; [exact Hr|]. intros w2.
  pose proof (runs_js_cleanup (is_paired options) (listener_options options)
                (cycle_signal w) (resolve w ref) (toArray event)
                (cycle_handler callback w) w2) as Htd.
  unfold js_teardown_calls in Htd. unfold custom_signal in Hsig.
  rewrite Hsig in Htd. simpl in Htd.
  eexists _, _. split; [exact Htd|].
  assert (Hmirror :
            deregistrations
              (if is_paired options
               then paired_unbind_calls (cycle_handler callback w)
                      (resolve w ref) (toArray event)
               else broadcast_unbind_calls (cycle_handler callback w)
                      (resolve w ref) (toArray event))
            = registrations (setup_calls options callback ref event w)).
  { rewrite registrations_setup_calls_loop. apply unbind_mirrors_bind. }
  split; [exact Hmirror|].
  intros n e h l Hreg Hin. rewrite <- Hmirror in Hreg.
  apply in_deregistrations in Hreg.
  eapply removal_is_effective; [apply never_binds_unbind | exact Hreg | exact Hin].
Qed.

(** X14. The TypeScript source under BROADCAST behaves likewise. *)
Lemma ts_broadcast_teardown_mirrors_setup (ref : OneOrMany RefObject)
      (event : OneOrMany string) (callback : nat -> Handler)
      (dependencies : list nat) (options : HookOptions) (w : World)
      (s : AbortSignal) :
  custom_signal options = Some s ->
  is_paired options = false ->
  exists td w1 t1,
    setup (TS.useEventer ref event callback dependencies options) w
    = (Normal td, w1, t1)
    /\ forall w2, exists w3 t3,
        td w2 = (Normal tt, w3, t3)
        /\ deregistrations t3 = registrations t1
        /\ forall n e h l,
            In (n, e, h) (registrations t1) -> In l (listeners w3) ->
            same_listener n e h false l = false.
Proof.
  intros Hsig Hp.
  assert (Hm : counts_mismatch options ref event = false)
    by (unfold counts_mismatch; now rewrite Hp).
  pose proof (setup_ts_runs ref event callback dependencies options w Hm) as Hr.
  rewrite Hp in Hr.
  eexists _, _, _. split; [exact Hr|]. intros w2.
  pose proof (runs_ts_teardown (is_paired options) (listener_options options)
                (cycle_signal w) (resolve w ref) (toArray event)
                (cycle_handler callback w) w2) as Htd.
  unfold ts_teardown_calls in Htd. unfold custom_signal in Hsig.
  rewrite Hsig, Hp in Htd. simpl in Htd.
  eexists _, _. split; [exact Htd|].
  assert (Hmirror :
            deregistrations
              (broadcast_unbind_calls (cycle_handler callback w)
                 (resolve w ref) (toArray event))
            = registrations (setup_calls options callback ref event w)).
  { rewrite registrations_setup_calls_loop, Hp.
    apply (unbind_mirrors_bind false). }
  split; [exact Hmirror|].
  intros n e h l Hreg Hin. rewrite <- Hmirror in Hreg.
  apply in_deregistrations in Hreg.
  eapply removal_is_effective;
    [apply (never_binds_unbind false) | exact Hreg | exact Hin].
Qed.

(** Under PAIRED the TypeScript effect returns the early
    [() => controller.abort()] whatever the listener options are: its
    teardown makes no removal call, and in a world where no listener carries
    the controller's signal, as when the caller's own signal was used for
    every registration, it leaves the listener lists as they are. *)
Lemma ts_paired_teardown_is_abort (ref : OneOrMany RefObject)
      (event : OneOrMany string) (callback : nat -> Handler)
      (dependencies : list nat) (options : HookOptions) (w : World) :
  is_paired options = true ->
  length (toArray ref) = length (toArray event) ->
  exists td w1 t1,
    setup (TS.useEventer ref event callback dependencies options) w
    = (Normal td, w1, t1)
    /\ forall w2,
        td w2 = (Normal tt, dom_abort (cycle_signal w) w2,
                 [Abort (cycle_signal w)])
        /\ ((forall l, In l (listeners w2) ->
                       l_signal l <> Some (cycle_signal w)) ->
            listeners (dom_abort (cycle_signal w) w2) = listeners w2).
Proof.
  intros Hp Hlen.
  assert (Hm : counts_mismatch options ref event = false).
  { unfold counts_mismatch. rewrite Hp, Hlen, Nat.eqb_refl. reflexivity. }
  pose proof (setup_ts_runs ref event callback dependencies options w Hm) as Hr.
  rewrite Hp in Hr.
  eexists _, _, _. split; [exact Hr|]. intros w2. split; [reflexivity|].
  intros Hnone. simpl.
  induction (listeners w2) as [|l ls IH]; simpl; [reflexivity|].
  assert (Hl : has_signal (cycle_signal w) l = false).
  { unfold has_signal. pose proof (Hnone l (or_introl eq_refl)) as Hs.
    destruct (l_signal l) as [s|]; [|reflexivity].
    apply Nat.eqb_neq. congruence. }
  rewrite Hl. simpl. f_equal. apply IH.
  intros l' Hin. apply Hnone. now right.
Qed.

(** Explicit removal passes no options, so it looks for a non-capture
    listener: a listener registered with [capture: true] and the caller's
    signal outlives the removal loop even under BROADCAST. *)
Lemma capture_listener_survives_removal :
  dispatch 10 "click"
           (snd (fst (cycle (TS.useEventer (One 0) (One "click"%string)
                                           sample_callback []
                                           capture_signal_options)
                            sample_world)))
  = [50]
  /\ deregistrations
       (snd (cycle (TS.useEventer (One 0) (One "click"%string)
                                  sample_callback [] capture_signal_options)
                   sample_world))
     = [(10, "click"%string, 50)].
Proof. split; reflexivity. Qed.

(** C1 at the failing input.  PAIRED topology, two populated targets, a
    caller-supplied signal: the registrations carry the caller's signal, the
    teardown returned by the TypeScript effect is the early-return
    [controller.abort()], which removes nothing: both listeners are still
    registered after teardown and dispatching still invokes the handler. *)
Theorem paired_custom_signal_teardown_leaks :
  exists td w1 t1 w3 t3,
    setup (TS.useEventer (Many [0; 1]) (Many ["click"; "hover"]%string)
                         sample_callback [] (custom_signal_options true))
          sample_world
    = (Normal td, w1, t1)
    /\ registrations t1 = [(10, "click", 50); (11, "hover", 50)]%string
    /\ td w1 = (Normal tt, w3, t3)
    /\ t3 = [Abort 100]
    /\ listeners w3 = listeners w1
    /\ dispatch 10 "click" w3 = [50]
    /\ dispatch 11 "hover" w3 = [50].
Proof.
  eexists _, _, _, _, _.
  split; [reflexivity|]. split; [reflexivity|]. split; [reflexivity|].
  repeat split.
Qed.

(** C8 at the failing input.  PAIRED topology, one populated target, a
    caller-supplied signal: setup registers the pair, the teardown of the
    TypeScript source makes no deregistration call at all, whereas the
    JavaScript build of the same hook removes the pair by index. *)
Theorem paired_explicit_removal_missing :
  exists td w1 t1 w3 t3 td' w3' t3',
    setup (TS.useEventer (One 0) (One "click"%string) sample_callback []
                         (custom_signal_options true)) sample_world
    = (Normal td, w1, t1)
    /\ registrations t1 = [(10, "click"%string, 50)]
    /\ td w1 = (Normal tt, w3, t3)
    /\ deregistrations t3 = []
    /\ setup (JS.useEventer (One 0) (One "click"%string) sample_callback []
                            (custom_signal_options true)) sample_world
       = (Normal td', w1, t1)
    /\ td' w1 = (Normal tt, w3', t3')
    /\ deregistrations t3' = [(10, "click"%string, 50)].
Proof.
  eexists _, _, _, _, _, _, _, _.
  split; [reflexivity|]. split; [reflexivity|]. split; [reflexivity|].
  split; [reflexivity|]. split; [reflexivity|]. split; reflexivity.
Qed.

(** ** Snapshot of the elements against re-reading the refs *)

(** C10, as the code has it.  The TypeScript source and the [useListener]
    variant fail on the same inputs.  With the call-per-binding flag unset
    they make the same calls during setup, hence the same registrations.
    Their teardowns agree in every world in which no caller-supplied signal
    is in play, or the topology is PAIRED, or every ref still holds what it
    held at setup.  With a caller-supplied signal under BROADCAST the
    TypeScript teardown removes the listeners from the elements resolved at
    setup, the variant's from the elements the refs hold when it runs. *)
Theorem snapshot_matches_reread (ref : OneOrMany RefObject)
        (event : OneOrMany string) (callback : nat -> Handler)
        (dependencies : list nat) (options : HookOptions) (w : World) :
  match setup (TS.useEventer ref event callback dependencies options) w,
        setup (Variant.useListener ref event callback dependencies options) w
  with
  | (Normal td_ts, w_ts, t_ts), (Normal td_v, w_v, t_v) =>
      (calls_on_each options = false -> w_ts = w_v /\ t_ts = t_v)
      /\ (forall w2,
          custom_signal options = None \/ is_paired options = true
          \/ (forall rf, In rf (toArray ref) -> current w2 rf = current w rf) ->
          td_ts w2 = td_v w2)
      /\ (forall w2 s,
          custom_signal options = Some s -> is_paired options = false ->
          deregistrations (snd (td_ts w2))
          = resolved_pairs (cycle_handler callback w)
              (list_prod (resolve w ref) (toArray event))
          /\ deregistrations (snd (td_v w2))
             = resolved_pairs (cycle_handler callback w)
                 (list_prod (map (current w2) (toArray ref))
                            (toArray event)))
  | (Throw e_ts, w_ts, t_ts), (Throw e_v, w_v, t_v) =>
      e_ts = e_v /\ w_ts = w_v /\ t_ts = t_v
  | _, _ => False
  end.
Proof.
  destruct (counts_mismatch options ref event) eqn:Hm.
  - rewrite setup_ts_throws, setup_variant_throws by exact Hm. auto.
  - pose proof (setup_ts_runs ref event callback dependencies options w Hm)
      as Hts.
    pose proof (setup_variant_runs ref event callback dependencies options w Hm)
      as Hv.
    unfold runs in Hts, Hv. rewrite Hts, Hv.
    split; [intros _; split; reflexivity|].
    assert (Htd : forall w2,
               runs (ts_teardown (is_paired options) (listener_options options)
                       (cycle_signal w) (resolve w ref) (toArray event)
                       (cycle_handler callback w)) w2 tt
                    (ts_teardown_calls (is_paired options)
                       (listener_options options) (cycle_signal w)
                       (resolve w ref) (toArray event)
                       (cycle_handler callback w)))
      by (intros w2; apply runs_ts_teardown).
    assert (Htdv : forall w2,
               runs (variant_teardown (is_paired options)
                       (listener_options options) (cycle_signal w)
                       (toArray ref) (toArray event)
                       (cycle_handler callback w)) w2 tt
                    (variant_teardown_calls (is_paired options)
                       (listener_options options) (cycle_signal w)
                       (map (current w2) (toArray ref)) (toArray event)
                       (cycle_handler callback w)))
      by (intros w2; apply runs_variant_teardown).
    unfold runs in Htd, Htdv. split.
    + intros w2 Hsame. rewrite Htd, Htdv.
      assert (Hcalls :
                ts_teardown_calls (is_paired options)
                  (listener_options options) (cycle_signal w) (resolve w ref)
                  (toArray event) (cycle_handler callback w)
                = variant_teardown_calls (is_paired options)
                    (listener_options options) (cycle_signal w)
                    (map (current w2) (toArray ref)) (toArray event)
                    (cycle_handler callback w)).
      { unfold ts_teardown_calls, variant_teardown_calls, custom_signal in *.
        destruct Hsame as [Hsig|[Hp|Hrefs]].
        - rewrite Hsig. reflexivity.
        - rewrite Hp. reflexivity.
        - unfold resolve. rewrite (map_ext_in _ _ _ Hrefs). reflexivity. }
      rewrite Hcalls. reflexivity.
    + intros w2 s Hsig Hp. rewrite Htd, Htdv.
      unfold ts_teardown_calls, variant_teardown_calls, custom_signal in *.
      rewrite Hsig, Hp. cbn [snd truthy].
      split; apply deregistrations_broadcast.
Qed.

(** One target that keeps its element, caller-supplied signal, BROADCAST. *)
Lemma snapshot_matches_reread_witness :
  ts_teardown false (listener_options (custom_signal_options false)) 100
              [Some 10] ["click"%string] 50 sample_world
  = variant_teardown false (listener_options (custom_signal_options false)) 100
                     [0] ["click"%string] 50 sample_world.
Proof.
  pose proof (snapshot_matches_reread (One 0) (One "click"%string)
                sample_callback [] (custom_signal_options false) sample_world)
    as H.
  destruct H as (_ & H & _). apply H.
  right. right. intros rf _. reflexivity.
Defined.

(** One target, caller-supplied signal, BROADCAST; the ref is emptied between
    setup and teardown.  The TypeScript teardown removes the listener from
    the element it saw at setup; the variant finds no element and removes
    nothing, leaving the listener registered. *)
Lemma snapshot_matches_reread_counterexample :
  exists td_ts td_v w1 t1,
    setup (TS.useEventer (One 0) (One "click"%string) sample_callback []
                         (custom_signal_options false)) sample_world
    = (Normal td_ts, w1, t1)
    /\ setup (Variant.useListener (One 0) (One "click"%string) sample_callback
                                  [] (custom_signal_options false)) sample_world
       = (Normal td_v, w1, t1)
    /\ deregistrations (snd (td_ts (set_current (fun _ => None) w1)))
       = [(10, "click"%string, 50)]
    /\ deregistrations (snd (td_v (set_current (fun _ => None) w1))) = []
    /\ td_ts (set_current (fun _ => None) w1)
       <> td_v (set_current (fun _ => None) w1).
Proof.
  eexists _, _, _, _.
  split; [reflexivity|]. split; [reflexivity|]. split; [reflexivity|].
  split; [reflexivity|]. intros Heq. apply (f_equal snd) in Heq.
  discriminate Heq.
Qed.

(** * Further properties of the three builds *)

(** ** Setup and teardown of any build *)

Lemma setup_build_throws (b : Build) (ref : OneOrMany RefObject)
      (event : OneOrMany string) (callback : nat -> Handler)
      (dependencies : list nat) (options : HookOptions) (w : World) :
  counts_mismatch options ref event = true ->
  setup (use_hook b ref event callback dependencies options) w
  = (Throw ConfigurationMismatch, w, []).
Proof.
  destruct b; simpl;
    [apply setup_ts_throws | apply setup_js_throws | apply setup_variant_throws].
Qed.

Lemma setup_build_runs (b : Build) (ref : OneOrMany RefObject)
      (event : OneOrMany string) (callback : nat -> Handler)
      (dependencies : list nat) (options : HookOptions) (w : World) :
  counts_mismatch options ref event = false ->
  runs (setup (use_hook b ref event callback dependencies options)) w
       (build_teardown b (is_paired options) (listener_options options)
          (cycle_signal w) (toArray ref) (resolve w ref) (toArray event)
          (cycle_handler callback w))
       (setup_calls options callback ref event w).
Proof.
  destruct b; simpl;
    [apply setup_ts_runs | apply setup_js_runs | apply setup_variant_runs].
Qed.

Lemma runs_build_teardown (b : Build) (paired : bool)
      (lo : AddEventListenerOptions) (c : AbortSignal) (refs : list RefObject)
      (nodes : list (option Node)) (events : list string) (h : Handler)
      (w : World) :
  runs (build_teardown b paired lo c refs nodes events h) w tt
       (build_teardown_calls b paired lo c nodes (map (current w) refs)
          events h).
Proof.
  destruct b; simpl;
    [apply runs_ts_teardown | apply runs_js_cleanup
     | apply runs_variant_teardown].
Qed.

(** A completed setup determines its outcome. *)
Lemma setup_build_inversion (b : Build) (ref : OneOrMany RefObject)
      (event : OneOrMany string) (callback : nat -> Handler)
      (dependencies : list nat) (options : HookOptions) (w : World)
      (td : Destructor) (w1 : World) (t1 : list Call) :
  setup (use_hook b ref event callback dependencies options) w
  = (Normal td, w1, t1) ->
  counts_mismatch options ref event = false
  /\ td = build_teardown b (is_paired options) (listener_options options)
            (cycle_signal w) (toArray ref) (resolve w ref) (toArray event)
            (cycle_handler callback w)
  /\ w1 = apply_calls (setup_calls options callback ref event w) w
  /\ t1 = setup_calls options callback ref event w.
Proof.
  intros Hrun. destruct (counts_mismatch options ref event) eqn:Hm.
  - rewrite setup_build_throws in Hrun by exact Hm. discriminate.
  - pose proof (setup_build_runs b ref event callback dependencies options w Hm)
      as Hr.
    unfold runs in Hr. rewrite Hr in Hrun. inversion Hrun. auto.
Qed.

(** ** The guard in every build *)

(** X1. The three builds share the guard: each of them raises the mismatch
    error exactly when the topology is PAIRED and the counts differ, and
    then nothing has happened; on every other input each of them completes
    setup. *)
Theorem every_build_guards_alike (b : Build) (ref : OneOrMany RefObject)
        (event : OneOrMany string) (callback : nat -> Handler)
        (dependencies : list nat) (options : HookOptions) (w : World) :
  (is_paired options = true /\ length (toArray ref) <> length (toArray event)
   -> setup (use_hook b ref event callback dependencies options) w
      = (Throw ConfigurationMismatch, w, []))
  /\ (forall e w' t,
      setup (use_hook b ref event callback dependencies options) w
      = (Throw e, w', t) ->
      is_paired options = true
      /\ length (toArray ref) <> length (toArray event))
  /\ (~ (is_paired options = true
         /\ length (toArray ref) <> length (toArray event))
      -> exists td w1 t1,
        setup (use_hook b ref event callback dependencies options) w
        = (Normal td, w1, t1)).
Proof.
  split; [|split].
  - intros [Hp Hlen]. apply setup_build_throws. unfold counts_mismatch.
    rewrite Hp. simpl. apply negb_true_iff, Nat.eqb_neq, Hlen.
  - intros e w' t Hrun.
    destruct (counts_mismatch options ref event) eqn:Hm.
    + unfold counts_mismatch in Hm. apply andb_true_iff in Hm as [Hp Hlen].
      split; [exact Hp|]. now apply Nat.eqb_neq, negb_true_iff.
    + pose proof (setup_build_runs b ref event callback dependencies options
                    w Hm) as Hok.
      unfold runs in Hok. rewrite Hok in Hrun. discriminate.
  - intros Hnot.
    assert (Hm : counts_mismatch options ref event = false).
    { unfold counts_mismatch. destruct (is_paired options); [|reflexivity].
      simpl. apply negb_false_iff, Nat.eqb_eq.
      destruct (Nat.eq_dec (length (toArray ref)) (length (toArray event)))
        as [Heq|Hne]; [exact Heq|]. exfalso. apply Hnot. auto. }
    pose proof (setup_build_runs b ref event callback dependencies options w Hm)
      as Hr.
    eexists _, _, _. exact Hr.
Qed.

(** The published variant on two targets and one event type, PAIRED; and
    the JavaScript build on matching counts. *)
Lemma every_build_guards_alike_witness :
  setup (use_hook ListenerVariant (Many [0; 1]) (One "click"%string)
                  sample_callback [] paired_options) sample_world
  = (Throw ConfigurationMismatch, sample_world, [])
  /\ exists td w1 t1,
      setup (use_hook SourceJS (Many [0; 1]) (Many ["click"; "hover"]%string)
                      sample_callback [] paired_options) sample_world
      = (Normal td, w1, t1).
Proof.
  split.
  - apply (proj1 (every_build_guards_alike ListenerVariant (Many [0; 1])
                    (One "click"%string) sample_callback [] paired_options
                    sample_world)).
    split; [reflexivity | simpl; lia].
  - apply (proj2 (proj2 (every_build_guards_alike SourceJS (Many [0; 1])
                           (Many ["click"; "hover"]%string) sample_callback []
                           paired_options sample_world))).
    intros [_ Hne]. apply Hne. reflexivity.
Defined.

(** ** Handler invocations under every flag combination *)

Lemma in_invocations (t : list Call) (h : Handler) (a : option string) :
  In (h, a) (invocations t) <-> In (CallHandler h a) t.
Proof.
  induction t as [|c t IH]; simpl; [reflexivity|].
  destruct c; simpl; rewrite ?IH;
    try (split; [auto | intros [Hc|Hin]; [discriminate | exact Hin]]).
  split.
  - intros [Heq|Hin]; [inversion Heq; subst; auto | auto].
  - intros [Heq|Hin]; [inversion Heq; subst; auto | auto].
Qed.

(** X2. In every build, setup invokes the handler once for the call-once
    flag and once per pair of the binding matrix for the call-per-binding
    flag, the two adding up; always the cycle's handler, never with an
    argument. With neither flag set, setup does not invoke the handler at
    all. *)
Theorem setup_invocation_count (b : Build) (ref : OneOrMany RefObject)
        (event : OneOrMany string) (callback : nat -> Handler)
        (dependencies : list nat) (options : HookOptions) (w : World) :
  counts_mismatch options ref event = false ->
  exists td w1 t1,
    setup (use_hook b ref event callback dependencies options) w
    = (Normal td, w1, t1)
    /\ length (invocations t1)
       = (if calls_once options then 1 else 0)
         + (if calls_on_each options
            then (if is_paired options then length (toArray ref)
                  else length (toArray ref) * length (toArray event))
            else 0)
    /\ (forall a, In a (invocations t1) -> a = (cycle_handler callback w, None))
    /\ (calls_once options = false -> calls_on_each options = false ->
        invocations t1 = []).
Proof.
  intros Hm.
  pose proof (setup_build_runs b ref event callback dependencies options w Hm)
    as Hr.
  assert (Hcount :
            length (invocations (setup_calls options callback ref event w))
            = (if calls_once options then 1 else 0)
              + (if calls_on_each options
                 then (if is_paired options then length (toArray ref)
                       else length (toArray ref) * length (toArray event))
                 else 0)).
  { unfold setup_calls. rewrite invocations_app, length_app.
    rewrite invocations_prologue, invocations_bind_loop.
    unfold resolve. rewrite length_map.
    destruct (calls_once options), (calls_on_each options); simpl; lia. }
  eexists _, _, _. split; [exact Hr|]. split; [exact Hcount|]. split.
  - intros [h a] Hin. apply in_invocations in Hin.
    apply in_setup_calls in Hin
      as [Hc|[Hc|[Hc|(n & evt & Hc)]]]; try discriminate.
    now inversion Hc.
  - intros Honce Heach. rewrite Honce, Heach in Hcount.
    destruct (invocations (setup_calls options callback ref event w));
      [reflexivity | discriminate].
Qed.

(** Both flags set, two targets, two event types, BROADCAST: 1 + 4. *)
Lemma setup_invocation_count_witness :
  exists td w1 t1,
    setup (use_hook ListenerVariant (Many [0; 1])
                    (Many ["click"; "hover"]%string) sample_callback []
                    (mkHookOptions None (Some true) (Some true) None))
          sample_world
    = (Normal td, w1, t1)
    /\ length (invocations t1) = 5.
Proof.
  destruct (setup_invocation_count ListenerVariant (Many [0; 1])
              (Many ["click"; "hover"]%string) sample_callback []
              (mkHookOptions None (Some true) (Some true) None)
              sample_world eq_refl)
    as (td & w1 & t1 & Hrun & Hcount & _).
  exists td, w1, t1. split; [exact Hrun | exact Hcount].
Defined.

(** ** Listener options reach every registration *)

(** X3. In every build, each registration of a setup passes the cycle's
    handler and the caller's [capture], [once] and [passive] members
    untouched.  Its [signal] member is the caller's whenever the listener
    options have a [signal] key, so that a key holding [undefined] leaves
    the registration without any signal, and it is the signal of the
    cycle's own controller only when the key is missing. *)
Theorem listener_options_passed_through (b : Build)
        (ref : OneOrMany RefObject) (event : OneOrMany string)
        (callback : nat -> Handler) (dependencies : list nat)
        (options : HookOptions) (w : World) :
  counts_mismatch options ref event = false ->
  exists td w1 t1,
    setup (use_hook b ref event callback dependencies options) w
    = (Normal td, w1, t1)
    /\ forall n e h o,
        In (AddListener n e h o) t1 ->
        h = cycle_handler callback w
        /\ capture o = capture (listener_options options)
        /\ once o = once (listener_options options)
        /\ passive o = passive (listener_options options)
        /\ signal o
           = match signal (listener_options options) with
             | Missing => Holds (cycle_signal w)
             | Undef => Undef
             | Holds s => Holds s
             end
        /\ signal_value o
           = match signal (listener_options options) with
             | Missing => Some (cycle_signal w)
             | Undef => None
             | Holds s => Some s
             end.
Proof.
  intros Hm.
  pose proof (setup_build_runs b ref event callback dependencies options w Hm)
    as Hr.
  eexists _, _, _. split; [exact Hr|]. intros n e h o Hin.
  apply in_setup_calls in Hin
    as [Hc|[Hc|[Hc|(n' & e' & Hc)]]]; try discriminate.
  inversion Hc; subst. repeat split.
  unfold signal_value, merge_options. cbn [signal].
  destruct (signal (listener_options options)); reflexivity.
Qed.

(** [capture: true] with the caller's signal 7 on one target; and the key
    [signal] holding [undefined]. *)
Lemma listener_options_passed_through_witness :
  (exists td w1 t1,
      setup (use_hook SourceJS (One 0) (One "click"%string) sample_callback []
                      capture_signal_options) sample_world
      = (Normal td, w1, t1)
      /\ forall n e h o,
          In (AddListener n e h o) t1 ->
          capture o = Some true /\ signal o = Holds 7)
  /\ (exists td w1 t1,
         setup (use_hook ListenerVariant (One 0) (One "click"%string)
                         sample_callback [] undefined_signal_options)
               sample_world
         = (Normal td, w1, t1)
         /\ forall n e h o,
             In (AddListener n e h o) t1 -> signal_value o = None).
Proof.
  split.
  - destruct (listener_options_passed_through SourceJS (One 0)
                (One "click"%string) sample_callback [] capture_signal_options
                sample_world eq_refl)
      as (td & w1 & t1 & Hrun & Hopts).
    exists td, w1, t1. split; [exact Hrun|]. intros n e h o Hin.
    destruct (Hopts n e h o Hin) as (_ & Hcap & _ & _ & Hsig & _).
    split; [exact Hcap | exact Hsig].
  - destruct (listener_options_passed_through ListenerVariant (One 0)
                (One "click"%string) sample_callback []
                undefined_signal_options sample_world eq_refl)
      as (td & w1 & t1 & Hrun & Hopts).
    exists td, w1, t1. split; [exact Hrun|]. intros n e h o Hin.
    destruct (Hopts n e h o Hin) as (_ & _ & _ & _ & _ & Hsig).
    exact Hsig.
Defined.

(** ** What setup does to the listener lists *)

Lemma listeners_apply_bind (c : Call) (w : World) :
  only_binds [c] = true ->
  exists added,
    listeners (apply_call c w) = listeners w ++ added
    /\ length added <= length (registrations [c])
    /\ forall l, In l added ->
                 exists n evt h o,
                   c = AddListener n evt h o
                   /\ l = mkListener n evt h (with_default false (capture o))
                                     (with_default false (once o))
                                     (with_default false (passive o))
                                     (signal_value o).
Proof.
  destruct c; simpl; try discriminate; intros _;
    try (exists []; rewrite app_nil_r; simpl;
         repeat split; [lia | contradiction]).
  unfold dom_add. destruct (is_aborted w (signal_value o)).
  { exists []. rewrite app_nil_r. simpl. repeat split; [lia | contradiction]. }
  destruct (existsb _ _).
  { exists []. rewrite app_nil_r. simpl. repeat split; [lia | contradiction]. }
  eexists [_]. simpl. split; [reflexivity|]. split; [lia|].
  intros l [<-|[]]. now exists n, evt, h, o.
Qed.

(** A trace that only binds appends to the listener lists, at most one
    listener per registration. *)
Lemma listeners_after_binds (t : list Call) (w : World) :
  only_binds t = true ->
  exists added,
    listeners (apply_calls t w) = listeners w ++ added
    /\ length added <= length (registrations t)
    /\ forall l, In l added ->
                 exists n evt h o,
                   In (AddListener n evt h o) t
                   /\ l = mkListener n evt h (with_default false (capture o))
                                     (with_default false (once o))
                                     (with_default false (passive o))
                                     (signal_value o).
Proof.
  revert w. induction t as [|c t IH]; intros w Hob.
  - exists []. simpl. rewrite app_nil_r. repeat split; [lia | contradiction].
  - change (apply_calls (c :: t) w) with (apply_calls t (apply_call c w)).
    simpl in Hob. apply andb_true_iff in Hob as [Hc Hob].
    destruct (listeners_apply_bind c w) as (a0 & Ha0 & Hlen0 & Hin0).
    { simpl. now rewrite Hc. }
    destruct (IH (apply_call c w) Hob) as (a1 & Ha1 & Hlen1 & Hin1).
    exists (a0 ++ a1). rewrite Ha1, Ha0, app_assoc. split; [reflexivity|].
    split.
    + rewrite length_app.
      change (c :: t) with ([c] ++ t).
      rewrite registrations_app, length_app. lia.
    + intros l Hin. apply in_app_iff in Hin as [Hin|Hin].
      * destruct (Hin0 l Hin) as (n & evt & h & o & -> & ->).
        exists n, evt, h, o. simpl. auto.
      * destruct (Hin1 l Hin) as (n & evt & h & o & Hadd & ->).
        exists n, evt, h, o. simpl. auto.
Qed.

(** X4. In every build, setup leaves every listener that was registered
    before where it was: the listener lists after setup are those before
    it, extended at the end by at most one listener per registration, each
    of them for a registered pair and with the cycle's handler.  A new
    listener carries the caller's signal when one was supplied, the signal
    of the cycle's controller when the listener options have no [signal]
    key, and no signal when that key holds [undefined].  Setup aborts
    nothing and changes no ref. *)
Theorem setup_keeps_existing_listeners (b : Build)
        (ref : OneOrMany RefObject) (event : OneOrMany string)
        (callback : nat -> Handler) (dependencies : list nat)
        (options : HookOptions) (w : World) :
  counts_mismatch options ref event = false ->
  exists td w1 t1 added,
    setup (use_hook b ref event callback dependencies options) w
    = (Normal td, w1, t1)
    /\ listeners w1 = listeners w ++ added
    /\ length added <= length (registrations t1)
    /\ (forall l, In l added ->
                  In (l_target l, l_type l, l_callback l) (registrations t1)
                  /\ l_callback l = cycle_handler callback w
                  /\ l_signal l
                     = match signal (listener_options options) with
                       | Missing => Some (cycle_signal w)
                       | Undef => None
                       | Holds s => Some s
                       end)
    /\ aborted w1 = aborted w
    /\ current w1 = current w.
Proof.
  intros Hm.
  pose proof (setup_build_runs b ref event callback dependencies options w Hm)
    as Hr.
  destruct (listeners_after_binds (setup_calls options callback ref event w) w
              (only_binds_setup_calls options callback ref event w))
    as (added & Hadded & Hlen & Hin).
  eexists _, _, _, added. split; [exact Hr|]. split; [exact Hadded|].
  split; [exact Hlen|]. split; [|split].
  - intros l Hl. destruct (Hin l Hl) as (n & evt & h & o & Hadd & ->).
    cbn [l_target l_type l_callback l_signal]. split.
    + apply in_registrations. exists o. exact Hadd.
    + apply in_setup_calls in Hadd
        as [Hc|[Hc|[Hc|(n' & e' & Hc)]]]; try discriminate.
      inversion Hc; subst. split; [reflexivity|].
      unfold signal_value, merge_options. cbn [signal].
      destruct (signal (listener_options options)); reflexivity.
  - apply aborted_only_binds, only_binds_setup_calls.
  - apply current_apply_calls.
Qed.

(** A listener of some other handler is already on X; BROADCAST setup on X
    and Y appends its own two after it. *)
Lemma setup_keeps_existing_listeners_witness :
  exists td w1 t1 added,
    setup (use_hook SourceTS (Many [0; 1]) (One "click"%string)
                    sample_callback [] each_options)
          (set_listeners
             [mkListener 10 "click"%string 9 false false false None]
             sample_world)
    = (Normal td, w1, t1)
    /\ listeners w1
       = [mkListener 10 "click"%string 9 false false false None] ++ added
    /\ length added <= 2.
Proof.
  destruct (setup_keeps_existing_listeners SourceTS (Many [0; 1])
              (One "click"%string) sample_callback [] each_options
              (set_listeners
                 [mkListener 10 "click"%string 9 false false false None]
                 sample_world) eq_refl)
    as (td & w1 & t1 & added & Hrun & Hadded & Hlen & _).
  exists td, w1, t1, added. split; [exact Hrun|]. split; [exact Hadded|].
  assert (Ht : (Normal td, w1, t1)
               = setup (use_hook SourceTS (Many [0; 1]) (One "click"%string)
                                 sample_callback [] each_options)
                       (set_listeners
                          [mkListener 10 "click"%string 9 false false false
                                      None]
                          sample_world)) by (symmetry; exact Hrun).
  apply (f_equal snd) in Ht. simpl in Ht. subst t1. exact Hlen.
Defined.

(** ** One full cycle on the default path *)

Lemma runs_cycle (b : Build) (ref : OneOrMany RefObject)
      (event : OneOrMany string) (callback : nat -> Handler)
      (dependencies : list nat) (options : HookOptions) (w : World) :
  counts_mismatch options ref event = false ->
  runs (cycle (use_hook b ref event callback dependencies options)) w tt
       (setup_calls options callback ref event w
        ++ build_teardown_calls b (is_paired options)
             (listener_options options) (cycle_signal w) (resolve w ref)
             (resolve w ref) (toArray event) (cycle_handler callback w)).
Proof.
  intros Hm. unfold cycle. eapply runs_bind.
  - apply setup_build_runs, Hm.
  - pose proof (runs_build_teardown b (is_paired options)
                  (listener_options options) (cycle_signal w) (toArray ref)
                  (resolve w ref) (toArray event) (cycle_handler callback w)
                  (apply_calls (setup_calls options callback ref event w) w))
      as Htd.
    rewrite current_apply_calls in Htd. exact Htd.
Qed.

Lemma default_teardown_calls (b : Build) (paired : bool)
      (lo : AddEventListenerOptions) (c : AbortSignal)
      (nodes nodes_now : list (option Node)) (events : list string)
      (h : Handler) :
  signal_value lo = None ->
  build_teardown_calls b paired lo c nodes nodes_now events h = [Abort c].
Proof.
  intros Hsig.
  destruct b; simpl;
    unfold ts_teardown_calls, js_teardown_calls, variant_teardown_calls;
    rewrite Hsig; destruct paired; reflexivity.
Qed.

Lemma signals_known_spec (w : World) :
  signals_known w = true
  <-> forall l s, In l (listeners w) -> l_signal l = Some s ->
                  s < next_signal w.
Proof.
  unfold signals_known. rewrite forallb_forall. split.
  - intros H l s Hin Hs. specialize (H l Hin). rewrite Hs in H.
    now apply Nat.ltb_lt.
  - intros H l Hin. destruct (l_signal l) as [s|] eqn:Hs; [|reflexivity].
    apply Nat.ltb_lt. exact (H l s Hin Hs).
Qed.

Lemma next_signal_apply_calls (t : list Call) (w : World) :
  next_signal w <= next_signal (apply_calls t w).
Proof.
  revert w. induction t as [|c t IH]; intros w; [apply Nat.le_refl|].
  change (apply_calls (c :: t) w) with (apply_calls t (apply_call c w)).
  eapply Nat.le_trans; [|apply IH].
  destruct c; simpl; try lia.
  unfold dom_add. destruct (is_aborted w (signal_value o)); [lia|].
  destruct (existsb _ _); simpl; lia.
Qed.

Lemma next_signal_setup_calls (options : HookOptions)
      (callback : nat -> Handler) (ref : OneOrMany RefObject)
      (event : OneOrMany string) (w : World) :
  next_signal (apply_calls (setup_calls options callback ref event w) w)
  = S (next_signal w).
Proof.
  unfold setup_calls. rewrite apply_calls_app.
  assert (Hloop : forall t w0,
             (forall c, In c t -> forall s, c <> NewAbortController s) ->
             next_signal (apply_calls t w0) = next_signal w0).
  { induction t as [|c t IH]; intros w0 Hno; [reflexivity|].
    change (apply_calls (c :: t) w0) with (apply_calls t (apply_call c w0)).
    rewrite IH by (intros c' Hin; apply Hno; now right).
    destruct c; simpl; try reflexivity.
    - exfalso. exact (Hno _ (or_introl eq_refl) s eq_refl).
    - unfold dom_add. destruct (is_aborted w0 (signal_value o)); [reflexivity|].
      destruct (existsb _ _); reflexivity. }
  rewrite Hloop.
  - unfold prologue. destruct (calls_once options); reflexivity.
  - intros c Hin s Hc. subst c.
    apply in_bind_loop in Hin as [Hc|(n & evt & Hc)]; discriminate.
Qed.

Lemma filter_all {A : Type} (f : A -> bool) (xs : list A) :
  (forall x, In x xs -> f x = true) -> filter f xs = xs.
Proof.
  induction xs as [|x xs IH]; intros H; simpl; [reflexivity|].
  rewrite (H x (or_introl eq_refl)). f_equal. apply IH.
  intros y Hy. apply H. now right.
Qed.

Lemma filter_none {A : Type} (f : A -> bool) (xs : list A) :
  (forall x, In x xs -> f x = false) -> filter f xs = [].
Proof.
  induction xs as [|x xs IH]; intros H; simpl; [reflexivity|].
  rewrite (H x (or_introl eq_refl)). apply IH.
  intros y Hy. apply H. now right.
Qed.

(** One cycle on the default path, for use in longer runs. *)
Lemma default_cycle_restores_listeners_aux (b : Build)
        (ref : OneOrMany RefObject) (event : OneOrMany string)
        (callback : nat -> Handler) (dependencies : list nat)
        (options : HookOptions) (w : World) :
  signal (listener_options options) = Missing ->
  counts_mismatch options ref event = false ->
  signals_known w = true ->
  exists w3 t,
    cycle (use_hook b ref event callback dependencies options) w
    = (Normal tt, w3, t)
    /\ listeners w3 = listeners w
    /\ current w3 = current w
    /\ aborted w3 = cycle_signal w :: aborted w
    /\ next_signal w3 = S (next_signal w)
    /\ factory_calls w3 = S (factory_calls w)
    /\ factory_invocations t = 1
    /\ signals_known w3 = true.
Proof.
  intros Hsig Hm Hknown.
  pose proof (runs_cycle b ref event callback dependencies options w Hm) as Hr.
  assert (Hnone : signal_value (listener_options options) = None)
    by (unfold signal_value; now rewrite Hsig).
  rewrite (default_teardown_calls b _ _ _ _ _ _ _ Hnone) in Hr.
  set (t1 := setup_calls options callback ref event w) in *.
  set (c := cycle_signal w) in *.
  assert (Hw3 : apply_calls (t1 ++ [Abort c]) w = dom_abort c (apply_calls t1 w))
    by (rewrite apply_calls_app; reflexivity).
  assert (Hls : listeners (dom_abort c (apply_calls t1 w)) = listeners w).
  { destruct (listeners_after_binds t1 w
                (only_binds_setup_calls options callback ref event w))
      as (added & Hadded & _ & Hin).
    unfold dom_abort. cbn [listeners]. rewrite Hadded, filter_app.
    rewrite filter_all, filter_none; [apply app_nil_r | |].
    - intros l Hl. destruct (Hin l Hl) as (n & evt & h & o & Hadd & ->).
      apply in_setup_calls in Hadd
        as [Hc|[Hc|[Hc|(n' & e' & Hc)]]]; try discriminate.
      inversion Hc; subst. unfold has_signal, signal_value, merge_options.
      cbn [l_signal signal]. rewrite Hsig. fold c. now rewrite Nat.eqb_refl.
    - intros l Hl. apply negb_true_iff. unfold has_signal.
      destruct (l_signal l) as [s|] eqn:Hs; [|reflexivity].
      apply Nat.eqb_neq.
      pose proof (proj1 (signals_known_spec w) Hknown l s Hl Hs) as Hlt.
      unfold c, cycle_signal. lia. }
  eexists _, _. split; [exact Hr|]. rewrite Hw3.
  split; [exact Hls|]. split; [|split; [|split; [|split; [|split]]]].
  - apply (current_apply_calls t1 w).
  - unfold dom_abort. cbn [aborted]. f_equal.
    apply aborted_only_binds, only_binds_setup_calls.
  - apply (next_signal_setup_calls options callback ref event w).
  - unfold dom_abort. cbn [factory_calls]. rewrite factory_calls_apply_calls.
    unfold t1. rewrite factory_invocations_setup_calls. lia.
  - rewrite factory_invocations_app. unfold t1.
    rewrite factory_invocations_setup_calls. reflexivity.
  - apply signals_known_spec. intros l s Hl Hs.
    rewrite Hls in Hl.
    pose proof (proj1 (signals_known_spec w) Hknown l s Hl Hs) as Hlt.
    unfold dom_abort. cbn [next_signal]. unfold t1.
    rewrite next_signal_setup_calls. lia.
Qed.

(** X5. In every build, when the listener options have no [signal] key,
    setup followed by teardown hands the listener lists back exactly as they
    were, element for element and in the same order, in a world whose
    listeners carry only signals created earlier; the cycle has called the
    factory once, used up one controller, aborted it, and left that
    condition on the world intact. *)
Theorem default_cycle_restores_listeners (b : Build)
        (ref : OneOrMany RefObject) (event : OneOrMany string)
        (callback : nat -> Handler) (dependencies : list nat)
        (options : HookOptions) (w : World) :
  signal (listener_options options) = Missing ->
  counts_mismatch options ref event = false ->
  signals_known w = true ->
  exists w3 t,
    cycle (use_hook b ref event callback dependencies options) w
    = (Normal tt, w3, t)
    /\ listeners w3 = listeners w
    /\ current w3 = current w
    /\ aborted w3 = cycle_signal w :: aborted w
    /\ next_signal w3 = S (next_signal w)
    /\ factory_calls w3 = S (factory_calls w)
    /\ factory_invocations t = 1
    /\ signals_known w3 = true.
Proof.
  intros Hsig Hm Hknown.
  exact (default_cycle_restores_listeners_aux b ref event callback
           dependencies options w Hsig Hm Hknown).
Qed.

(** Another handler's listener on X survives a whole cycle of the hook on X
    and Y, and is all that is left. *)
Lemma default_cycle_restores_listeners_witness :
  exists w3 t,
    cycle (use_hook ListenerVariant (Many [0; 1]) (One "click"%string)
                    sample_callback [] each_options)
          (set_listeners
             [mkListener 10 "click"%string 9 false false false (Some 3)]
             sample_world)
    = (Normal tt, w3, t)
    /\ listeners w3
       = [mkListener 10 "click"%string 9 false false false (Some 3)].
Proof.
  destruct (default_cycle_restores_listeners ListenerVariant (Many [0; 1])
              (One "click"%string) sample_callback [] each_options
              (set_listeners
                 [mkListener 10 "click"%string 9 false false false (Some 3)]
                 sample_world) eq_refl eq_refl eq_refl)
    as (w3 & t & Hrun & Hls & _).
  exists w3, t. split; [exact Hrun | exact Hls].
Defined.

(** ** Cycles in a row *)

(** X6. In every build, when the listener options have no [signal] key and
    the host runs [k] cycles one after the other, each torn down before the
    next starts, the listener lists end up exactly as they were before the
    first; the factory has been called once per cycle and each cycle has
    used a controller of its own. *)
Theorem default_cycles_compose (b : Build) (ref : OneOrMany RefObject)
        (event : OneOrMany string) (callback : nat -> Handler)
        (dependencies : list nat) (options : HookOptions) (k : nat)
        (w : World) :
  signal (listener_options options) = Missing ->
  counts_mismatch options ref event = false ->
  signals_known w = true ->
  exists w' t,
    cycles k (use_hook b ref event callback dependencies options) w
    = (Normal tt, w', t)
    /\ listeners w' = listeners w
    /\ current w' = current w
    /\ next_signal w' = k + next_signal w
    /\ factory_calls w' = k + factory_calls w
    /\ factory_invocations t = k
    /\ signals_known w' = true.
Proof.
  intros Hsig Hm. revert w. induction k as [|k IH]; intros w Hknown.
  - exists w, []. repeat split. exact Hknown.
  - destruct (default_cycle_restores_listeners_aux b ref event callback
                dependencies options w Hsig Hm Hknown)
      as (w3 & t & Hrun & Hls & Hcur & _ & Hnext & Hfac & Hinv & Hknown3).
    destruct (IH w3 Hknown3)
      as (w' & t' & Hrun' & Hls' & Hcur' & Hnext' & Hfac' & Hinv' & Hknown').
    exists w', (t ++ t'). split.
    + simpl. unfold bind. rewrite Hrun, Hrun'. reflexivity.
    + rewrite Hls', Hcur', Hnext', Hfac', Hls, Hcur, Hnext, Hfac.
      rewrite factory_invocations_app, Hinv, Hinv'.
      repeat split; try lia. exact Hknown'.
Qed.

(** Three cycles of the published variant on a populated target. *)
Lemma default_cycles_compose_witness :
  exists w' t,
    cycles 3 (use_hook ListenerVariant (One 0) (One "click"%string)
                       sample_callback [] once_options) sample_world
    = (Normal tt, w', t)
    /\ listeners w' = []
    /\ next_signal w' = 103
    /\ factory_calls w' = 3.
Proof.
  destruct (default_cycles_compose ListenerVariant (One 0) (One "click"%string)
              sample_callback [] once_options 3 sample_world
              eq_refl eq_refl eq_refl)
    as (w' & t & Hrun & Hls & _ & Hnext & Hfac & _).
  exists w', t. repeat split; [exact Hrun | exact Hls | exact Hnext | exact Hfac].
Defined.

(** ** What teardown does to the listener lists *)

Lemma filter_filter_and {A : Type} (f g : A -> bool) (xs : list A) :
  filter g (filter f xs) = filter (fun x => f x && g x) xs.
Proof.
  induction xs as [|x xs IH]; simpl; [reflexivity|].
  destruct (f x); simpl; [destruct (g x); now rewrite IH | exact IH].
Qed.

(** A trace that never binds filters the listener lists. *)
Lemma listeners_filtered (t : list Call) (w : World) :
  never_binds t = true ->
  listeners (apply_calls t w) = filter (survives t) (listeners w).
Proof.
  revert w. induction t as [|c t IH]; intros w Hnb.
  - simpl. symmetry. apply filter_all. reflexivity.
  - change (apply_calls (c :: t) w) with (apply_calls t (apply_call c w)).
    simpl in Hnb. apply andb_true_iff in Hnb as [Hc Hnb].
    rewrite (IH _ Hnb).
    destruct c; try discriminate; simpl;
      try (apply filter_ext; intros l; reflexivity);
      rewrite filter_filter_and; apply filter_ext; intros l; reflexivity.
Qed.

Lemma in_build_teardown_calls (b : Build) (paired : bool)
      (lo : AddEventListenerOptions) (c : AbortSignal)
      (nodes nodes_now : list (option Node)) (events : list string)
      (h : Handler) (x : Call) :
  In x (build_teardown_calls b paired lo c nodes nodes_now events h) ->
  x = Abort c \/ exists n evt, x = RemoveListener n evt h.
Proof.
  assert (Hone : forall node evt, In x (unbind_calls h node evt) ->
             exists n e, x = RemoveListener n e h).
  { intros [n|] evt; simpl; [|contradiction]. intros [<-|[]]. now exists n, evt. }
  assert (Hp : forall ns, In x (paired_unbind_calls h ns events) ->
             exists n e, x = RemoveListener n e h).
  { intros ns Hin. apply in_flat_map in Hin as [i [_ Hin]]. eauto. }
  assert (Hb : forall ns, In x (broadcast_unbind_calls h ns events) ->
             exists n e, x = RemoveListener n e h).
  { intros ns Hin. apply in_flat_map in Hin as [node [_ Hin]].
    apply in_flat_map in Hin as [evt [_ Hin]]. eauto. }
  assert (Ha : In x [Abort c] -> x = Abort c)
    by (intros [<-|[]]; reflexivity).
  destruct b; simpl;
    unfold ts_teardown_calls, js_teardown_calls, variant_teardown_calls;
    destruct paired, (truthy (signal_value lo)); intros Hin;
    try (left; exact (Ha Hin));
    right; first [exact (Hp _ Hin) | exact (Hb _ Hin)].
Qed.

Lemma never_binds_teardown_calls (b : Build) (paired : bool)
      (lo : AddEventListenerOptions) (c : AbortSignal)
      (nodes nodes_now : list (option Node)) (events : list string)
      (h : Handler) :
  never_binds (build_teardown_calls b paired lo c nodes nodes_now events h)
  = true.
Proof.
  unfold never_binds. apply forallb_forall. intros x Hin.
  apply in_build_teardown_calls in Hin as [->|(n & evt & ->)]; reflexivity.
Qed.

Lemma survives_teardown_calls (b : Build) (paired : bool)
      (lo : AddEventListenerOptions) (c : AbortSignal)
      (nodes nodes_now : list (option Node)) (events : list string)
      (h : Handler) (l : Listener) :
  l_signal l <> Some c -> l_callback l <> h ->
  survives (build_teardown_calls b paired lo c nodes nodes_now events h) l
  = true.
Proof.
  intros Hs Hh. unfold survives. apply forallb_forall. intros x Hin.
  apply in_build_teardown_calls in Hin as [->|(n & evt & ->)].
  - apply negb_true_iff. unfold has_signal.
    destruct (l_signal l) as [s|]; [|reflexivity].
    apply Nat.eqb_neq. congruence.
  - apply negb_true_iff. destruct (same_listener n evt h false l) eqn:Hsame;
      [|reflexivity].
    apply same_listener_fields in Hsame. tauto.
Qed.

Lemma quiet_teardown_calls (b : Build) (paired : bool)
      (lo : AddEventListenerOptions) (c : AbortSignal)
      (nodes nodes_now : list (option Node)) (events : list string)
      (h : Handler) :
  invocations (build_teardown_calls b paired lo c nodes nodes_now events h) = []
  /\ registrations
       (build_teardown_calls b paired lo c nodes nodes_now events h) = []
  /\ factory_invocations
       (build_teardown_calls b paired lo c nodes nodes_now events h) = 0.
Proof.
  pose proof (in_build_teardown_calls b paired lo c nodes nodes_now events h)
    as Hin.
  induction (build_teardown_calls b paired lo c nodes nodes_now events h)
    as [|x t IH]; [repeat split|].
  destruct IH as (Hi & Hr & Hf); [intros y Hy; apply Hin; now right|].
  destruct (Hin x (or_introl eq_refl)) as [->|(n & evt & ->)]; simpl; auto.
Qed.

(** X7. In every build, the teardown of a completed setup, in whatever world
    it runs, only takes listeners away: the lists afterwards are the lists
    before with some entries filtered out, in the same order, and no
    listener of another handler that does not carry the cycle's controller
    signal is among those taken. Teardown never invokes the handler, never
    calls the factory, never registers, and leaves the refs alone. *)
Theorem teardown_spares_other_listeners (b : Build)
        (ref : OneOrMany RefObject) (event : OneOrMany string)
        (callback : nat -> Handler) (dependencies : list nat)
        (options : HookOptions) (w : World)
        (td : Destructor) (w1 : World) (t1 : list Call) :
  setup (use_hook b ref event callback dependencies options) w
  = (Normal td, w1, t1) ->
  forall w2, exists w3 t3 keep,
    td w2 = (Normal tt, w3, t3)
    /\ listeners w3 = filter keep (listeners w2)
    /\ (forall l, l_signal l <> Some (cycle_signal w) ->
                  l_callback l <> cycle_handler callback w ->
                  keep l = true)
    /\ current w3 = current w2
    /\ invocations t3 = []
    /\ registrations t3 = []
    /\ factory_invocations t3 = 0.
Proof.
  intros Hrun w2.
  apply setup_build_inversion in Hrun as (_ & -> & _ & _).
  pose proof (runs_build_teardown b (is_paired options)
                (listener_options options) (cycle_signal w) (toArray ref)
                (resolve w ref) (toArray event) (cycle_handler callback w) w2)
    as Htd.
  eexists _, _, _. split; [exact Htd|]. split; [|split; [|split]].
  - apply listeners_filtered, never_binds_teardown_calls.
  - intros l Hs Hh. now apply survives_teardown_calls.
  - apply current_apply_calls.
  - apply quiet_teardown_calls.
Qed.

(** Explicit removal under BROADCAST next to two foreign listeners. *)
Lemma teardown_spares_other_listeners_witness :
  exists w3 t3 keep,
    ts_teardown false (listener_options (custom_signal_options false)) 100
                [Some 10] ["click"%string] 50 sample_world
    = (Normal tt, w3, t3)
    /\ listeners w3 = filter keep (listeners sample_world)
    /\ keep (mkListener 10 "click"%string 9 false false false (Some 7)) = true.
Proof.
  destruct (teardown_spares_other_listeners SourceTS (One 0)
              (One "click"%string) sample_callback []
              (custom_signal_options false) sample_world eq_refl sample_world)
    as (w3 & t3 & keep & Hrun & Hls & Hkeep & _).
  exists w3, t3, keep. split; [exact Hrun|]. split; [exact Hls|].
  apply Hkeep; simpl; discriminate.
Defined.

(** X8. In every build, running the teardown a second time changes nothing
    any more: it makes the same calls and leaves the listener lists as the
    first run left them. *)
Theorem teardown_is_idempotent (b : Build)
        (ref : OneOrMany RefObject) (event : OneOrMany string)
        (callback : nat -> Handler) (dependencies : list nat)
        (options : HookOptions) (w : World)
        (td : Destructor) (w1 : World) (t1 : list Call) :
  setup (use_hook b ref event callback dependencies options) w
  = (Normal td, w1, t1) ->
  forall w2, exists w3 w4 t3,
    td w2 = (Normal tt, w3, t3)
    /\ td w3 = (Normal tt, w4, t3)
    /\ listeners w4 = listeners w3.
Proof.
  intros Hrun w2.
  apply setup_build_inversion in Hrun as (_ & -> & _ & _).
  pose proof (runs_build_teardown b (is_paired options)
                (listener_options options) (cycle_signal w) (toArray ref)
                (resolve w ref) (toArray event) (cycle_handler callback w))
    as Htd.
  pose proof (Htd w2) as H2. unfold runs in H2.
  set (t3 := build_teardown_calls b (is_paired options)
               (listener_options options) (cycle_signal w) (resolve w ref)
               (map (current w2) (toArray ref)) (toArray event)
               (cycle_handler callback w)) in *.
  pose proof (Htd (apply_calls t3 w2)) as H3. unfold runs in H3.
  rewrite current_apply_calls in H3. fold t3 in H3.
  eexists _, _, _. split; [exact H2|]. split; [exact H3|].
  assert (Hnb : never_binds t3 = true) by apply never_binds_teardown_calls.
  rewrite !listeners_filtered by exact Hnb.
  rewrite filter_filter_and. apply filter_ext. intros l.
  now destruct (survives t3 l).
Qed.

(** The explicit removal of the JavaScript build under PAIRED, run twice. *)
Lemma teardown_is_idempotent_witness :
  exists w3 w4 t3,
    JS.cleanup true (listener_options (custom_signal_options true)) 100
               [Some 10; Some 11] ["click"; "hover"]%string 50 sample_world
    = (Normal tt, w3, t3)
    /\ JS.cleanup true (listener_options (custom_signal_options true)) 100
                  [Some 10; Some 11] ["click"; "hover"]%string 50 w3
       = (Normal tt, w4, t3)
    /\ listeners w4 = listeners w3.
Proof.
  exact (teardown_is_idempotent SourceJS (Many [0; 1])
           (Many ["click"; "hover"]%string) sample_callback []
           (custom_signal_options true) sample_world eq_refl sample_world).
Defined.

(** ** The caller's own signal *)

(** X9. In every build and under either topology, when the caller supplies a
    signal that is not aborted yet and the handler is a function no listener
    uses yet, every registration of the setup is in effect afterwards, and
    aborting the caller's signal takes all of them away at once: no event at
    any target invokes the handler any more, whatever the capture flag. *)
Theorem caller_signal_removes_registrations (b : Build)
        (ref : OneOrMany RefObject) (event : OneOrMany string)
        (callback : nat -> Handler) (dependencies : list nat)
        (options : HookOptions) (w : World) (s : AbortSignal) :
  custom_signal options = Some s ->
  counts_mismatch options ref event = false ->
  (forall l, In l (listeners w) -> l_callback l <> cycle_handler callback w) ->
  ~ In s (aborted w) ->
  exists td w1 t1,
    setup (use_hook b ref event callback dependencies options) w
    = (Normal td, w1, t1)
    /\ (forall n e h, In (n, e, h) (registrations t1) -> In h (dispatch n e w1))
    /\ (forall n e,
        ~ In (cycle_handler callback w) (dispatch n e (dom_abort s w1))).
Proof.
  intros Hsig Hm Hfresh Hlive.
  pose proof (setup_build_runs b ref event callback dependencies options w Hm)
    as Hr.
  set (t1 := setup_calls options callback ref event w) in *.
  assert (Hmerged : signal_value (merge_options (cycle_signal w)
                                                (listener_options options))
                    = Some s).
  { unfold custom_signal, signal_value in *. unfold merge_options.
    cbn [signal]. now destruct (signal (listener_options options)). }
  eexists _, _, _. split; [exact Hr|]. split.
  - intros n e h Hin. apply in_registrations in Hin as [o Hin].
    pose proof Hin as Hc.
    apply in_setup_calls in Hc
      as [Hc|[Hc|[Hc|(n' & e' & Hc)]]]; try discriminate.
    inversion Hc; subst n' e' h o.
    assert (Hnot : is_aborted w
                     (signal_value
                        (merge_options (cycle_signal w)
                                       (listener_options options)))
                   = false)
      by (rewrite Hmerged; now apply not_aborted).
    destruct (bind_is_effective t1 w n e (cycle_handler callback w) _
                (only_binds_setup_calls options callback ref event w) Hin Hnot)
      as [l [Hl Hsame]].
    apply same_listener_fields in Hsame as (Hn & He & Hh & _).
    apply in_dispatch. exists l. auto.
  - intros n e Hin. apply in_dispatch in Hin as [l (Hl & _ & _ & Hh)].
    apply in_dom_abort in Hl as [Hl Hs].
    apply listeners_apply_calls in Hl as [Hl|(n' & e' & h' & o & Hadd & ->)].
    + exact (Hfresh l Hl Hh).
    + apply in_setup_calls in Hadd
        as [Hc|[Hc|[Hc|(n'' & e'' & Hc)]]]; try discriminate.
      inversion Hc; subst. apply Hs. exact Hmerged.
Qed.

(** PAIRED with the caller's signal 7, the input on which teardown itself
    removes nothing. *)
Lemma caller_signal_removes_registrations_witness :
  exists td w1 t1,
    setup (use_hook SourceTS (Many [0; 1]) (Many ["click"; "hover"]%string)
                    sample_callback [] (custom_signal_options true))
          sample_world
    = (Normal td, w1, t1)
    /\ In 50 (dispatch 10 "click" w1)
    /\ ~ In 50 (dispatch 10 "click" (dom_abort 7 w1)).
Proof.
  destruct (caller_signal_removes_registrations SourceTS (Many [0; 1])
              (Many ["click"; "hover"]%string) sample_callback []
              (custom_signal_options true) sample_world (s := 7)
              eq_refl eq_refl)
    as (td & w1 & t1 & Hrun & Hreg & Hgone).
  - intros l [].
  - intros [].
  - exists td, w1, t1. split; [exact Hrun|]. split; [|apply Hgone].
    apply (Hreg 10 "click"%string 50).
    assert (Ht : (Normal td, w1, t1)
                 = setup (use_hook SourceTS (Many [0; 1])
                                   (Many ["click"; "hover"]%string)
                                   sample_callback []
                                   (custom_signal_options true))
                         sample_world) by (symmetry; exact Hrun).
    apply (f_equal snd) in Ht. simpl in Ht. subst t1. simpl. auto.
Defined.

(** ** The TypeScript source against its JavaScript build *)

(** X10. [src/index.ts] and [src/index.js] fail on the same inputs and make
    the same calls during setup; their teardowns make the same calls in
    every world unless the topology is PAIRED and the caller supplies a
    signal. *)
Theorem ts_agrees_with_js (ref : OneOrMany RefObject)
        (event : OneOrMany string) (callback : nat -> Handler)
        (dependencies : list nat) (options : HookOptions) (w : World) :
  match setup (TS.useEventer ref event callback dependencies options) w,
        setup (JS.useEventer ref event callback dependencies options) w
  with
  | (Normal td_ts, w_ts, t_ts), (Normal td_js, w_js, t_js) =>
      w_ts = w_js /\ t_ts = t_js
      /\ forall w2,
          custom_signal options = None \/ is_paired options = false ->
          td_ts w2 = td_js w2
  | (Throw e_ts, w_ts, t_ts), (Throw e_js, w_js, t_js) =>
      e_ts = e_js /\ w_ts = w_js /\ t_ts = t_js
  | _, _ => False
  end.
Proof.
  destruct (counts_mismatch options ref event) eqn:Hm.
  - rewrite setup_ts_throws, setup_js_throws by exact Hm. auto.
  - pose proof (setup_ts_runs ref event callback dependencies options w Hm)
      as Hts.
    pose proof (setup_js_runs ref event callback dependencies options w Hm)
      as Hjs.
    unfold runs in Hts, Hjs. rewrite Hts, Hjs.
    split; [reflexivity|]. split; [reflexivity|]. intros w2 Hsame.
    pose proof (runs_ts_teardown (is_paired options) (listener_options options)
                  (cycle_signal w) (resolve w ref) (toArray event)
                  (cycle_handler callback w) w2) as Htd.
    pose proof (runs_js_cleanup (is_paired options) (listener_options options)
                  (cycle_signal w) (resolve w ref) (toArray event)
                  (cycle_handler callback w) w2) as Htdj.
    unfold runs in Htd, Htdj. rewrite Htd, Htdj.
    assert (Hcalls :
              ts_teardown_calls (is_paired options) (listener_options options)
                (cycle_signal w) (resolve w ref) (toArray event)
                (cycle_handler callback w)
              = js_teardown_calls (is_paired options)
                  (listener_options options) (cycle_signal w)
                  (resolve w ref) (toArray event) (cycle_handler callback w)).
    { unfold ts_teardown_calls, js_teardown_calls, custom_signal in *.
      destruct Hsame as [Hsig|Hp].
      - rewrite Hsig. now destruct (is_paired options).
      - rewrite Hp. now destruct (truthy _). }
    rewrite Hcalls. reflexivity.
Qed.

(** BROADCAST with the caller's signal: the same explicit removal. *)
Lemma ts_agrees_with_js_witness :
  ts_teardown false (listener_options (custom_signal_options false)) 100
              [Some 10; None] ["click"%string] 50 sample_world
  = JS.cleanup false (listener_options (custom_signal_options false)) 100
               [Some 10; None] ["click"%string] 50 sample_world.
Proof.
  pose proof (ts_agrees_with_js (Many [0; 5]) (One "click"%string)
                sample_callback [] (custom_signal_options false) sample_world)
    as H.
  destruct H as (_ & _ & H). apply H. right. reflexivity.
Defined.

(** ** Explicit removal in the published variant *)

(** X11. With a caller-supplied signal under BROADCAST, the cleanup of the
    [useListener] variant addresses the elements its refs hold when it runs:
    its removal calls are the cross product of the targets as resolved then
    with the event types, absent ones skipped. They are the registrations of
    the setup when every ref still holds what it held at setup, and then no
    registered pair keeps a (non-capture) listener for the handler. *)
Theorem variant_removal_reads_refs_at_cleanup (ref : OneOrMany RefObject)
        (event : OneOrMany string) (callback : nat -> Handler)
        (dependencies : list nat) (options : HookOptions) (w : World)
        (s : AbortSignal) :
  custom_signal options = Some s ->
  is_paired options = false ->
  exists td w1 t1,
    setup (Variant.useListener ref event callback dependencies options) w
    = (Normal td, w1, t1)
    /\ forall w2, exists w3 t3,
        td w2 = (Normal tt, w3, t3)
        /\ deregistrations t3
           = resolved_pairs (cycle_handler callback w)
               (list_prod (map (current w2) (toArray ref)) (toArray event))
        /\ ((forall rf, In rf (toArray ref) -> current w2 rf = current w rf) ->
            deregistrations t3 = registrations t1
            /\ forall n e h l,
                In (n, e, h) (registrations t1) -> In l (listeners w3) ->
                same_listener n e h false l = false).
Proof.
  intros Hsig Hp.
  assert (Hm : counts_mismatch options ref event = false)
    by (unfold counts_mismatch; now rewrite Hp).
  pose proof (setup_variant_runs ref event callback dependencies options w Hm)
    as Hr.
  rewrite Hp in Hr.
  eexists _, _, _. split; [exact Hr|]. intros w2.
  pose proof (runs_variant_teardown false (listener_options options)
                (cycle_signal w) (toArray ref) (toArray event)
                (cycle_handler callback w) w2) as Htd.
  unfold variant_teardown_calls in Htd. unfold custom_signal in Hsig.
  rewrite Hsig in Htd. simpl in Htd.
  eexists _, _. split; [exact Htd|]. split; [apply deregistrations_broadcast|].
  intros Hsame.
  assert (Hmirror :
            deregistrations
              (broadcast_unbind_calls (cycle_handler callback w)
                 (map (current w2) (toArray ref)) (toArray event))
            = registrations (setup_calls options callback ref event w)).
  { rewrite (map_ext_in _ _ _ Hsame).
    rewrite registrations_setup_calls_loop, Hp.
    apply (unbind_mirrors_bind false). }
  split; [exact Hmirror|].
  intros n e h l Hreg Hin. rewrite <- Hmirror in Hreg.
  apply in_deregistrations in Hreg.
  eapply removal_is_effective;
    [apply (never_binds_unbind false) | exact Hreg | exact Hin].
Qed.

(** Ref 0 is moved from element 10 to element 20 before cleanup: the
    removal call goes to element 20. *)
Lemma variant_removal_reads_refs_at_cleanup_witness :
  exists td w1 t1 w3 t3,
    setup (Variant.useListener (One 0) (One "click"%string) sample_callback []
                               (custom_signal_options false)) sample_world
    = (Normal td, w1, t1)
    /\ td (set_current (fun _ => Some 20) w1) = (Normal tt, w3, t3)
    /\ deregistrations t3 = [(20, "click"%string, 50)].
Proof.
  destruct (variant_removal_reads_refs_at_cleanup (One 0) (One "click"%string)
              sample_callback [] (custom_signal_options false) sample_world
              (s := 7) eq_refl eq_refl)
    as (td & w1 & t1 & Hrun & Htd).
  destruct (Htd (set_current (fun _ => Some 20) w1))
    as (w3 & t3 & Hrun3 & Hder & _).
  exists td, w1, t1, w3, t3. split; [exact Hrun|]. split; [exact Hrun3|].
  exact Hder.
Defined.

(** ** Targets that are not mounted *)

Lemma resolved_pairs_absent (h : Handler) (ps : list (option Node * string)) :
  (forall p, In p ps -> fst p = None) -> resolved_pairs h ps = [].
Proof.
  unfold resolved_pairs. induction ps as [|p ps IH]; intros H; [reflexivity|].
  simpl. rewrite (H p (or_introl eq_refl)). simpl. apply IH.
  intros q Hq. apply H. now right.
Qed.

(** X12. In every build, when none of the refs holds an element as the cycle
    starts (in particular when there is no ref at all), setup completes
    without a single registration and leaves the listener lists untouched;
    the factory is still called once. *)
Theorem unmounted_targets_register_nothing (b : Build)
        (ref : OneOrMany RefObject) (event : OneOrMany string)
        (callback : nat -> Handler) (dependencies : list nat)
        (options : HookOptions) (w : World) :
  (forall rf, In rf (toArray ref) -> current w rf = None) ->
  counts_mismatch options ref event = false ->
  exists td w1 t1,
    setup (use_hook b ref event callback dependencies options) w
    = (Normal td, w1, t1)
    /\ registrations t1 = []
    /\ listeners w1 = listeners w
    /\ factory_invocations t1 = 1.
Proof.
  intros Hnone Hm.
  pose proof (setup_build_runs b ref event callback dependencies options w Hm)
    as Hr.
  assert (Hreg : registrations (setup_calls options callback ref event w) = []).
  { rewrite (registrations_setup_calls options callback ref event w Hm).
    apply resolved_pairs_absent. intros [o e] Hin. simpl.
    assert (Ho : In o (resolve w ref)).
    { destruct (is_paired options).
      - exact (in_combine_l _ _ _ _ Hin).
      - apply in_prod_iff in Hin. tauto. }
    unfold resolve in Ho. apply in_map_iff in Ho as [rf [<- Hrf]].
    exact (Hnone rf Hrf). }
  eexists _, _, _. split; [exact Hr|]. split; [exact Hreg|]. split.
  - destruct (listeners_after_binds (setup_calls options callback ref event w)
                w (only_binds_setup_calls options callback ref event w))
      as (added & Hadded & Hlen & _).
    rewrite Hreg in Hlen. destruct added; [|simpl in Hlen; lia].
    now rewrite app_nil_r in Hadded.
  - apply factory_invocations_setup_calls.
Qed.

(** Two empty refs under BROADCAST with call-per-binding. *)
Lemma unmounted_targets_register_nothing_witness :
  exists td w1 t1,
    setup (use_hook SourceTS (Many [5; 6]) (Many ["click"; "hover"]%string)
                    sample_callback [] each_options) sample_world
    = (Normal td, w1, t1)
    /\ registrations t1 = []
    /\ listeners w1 = [].
Proof.
  destruct (unmounted_targets_register_nothing SourceTS (Many [5; 6])
              (Many ["click"; "hover"]%string) sample_callback [] each_options
              sample_world)
    as (td & w1 & t1 & Hrun & Hreg & Hls & _).
  - intros rf [<-|[<-|[]]]; reflexivity.
  - reflexivity.
  - exists td, w1, t1. split; [exact Hrun|]. split; [exact Hreg | exact Hls].
Defined.

(** ** Explicit removal: recorded instances *)

(** PAIRED with the caller's signal in the JavaScript build. *)
Lemma js_teardown_removes_every_pair_witness :
  exists td w1 t1 w3 t3,
    setup (JS.useEventer (Many [0; 1]) (Many ["click"; "hover"]%string)
                         sample_callback [] (custom_signal_options true))
          sample_world
    = (Normal td, w1, t1)
    /\ td w1 = (Normal tt, w3, t3)
    /\ deregistrations t3 = registrations t1.
Proof.
  destruct (js_teardown_removes_every_pair (Many [0; 1])
              (Many ["click"; "hover"]%string) sample_callback []
              (custom_signal_options true) sample_world (s := 7)
              eq_refl eq_refl)
    as (td & w1 & t1 & Hrun & Htd).
  destruct (Htd w1) as (w3 & t3 & Hrun3 & Hder & _).
  exists td, w1, t1, w3, t3. split; [exact Hrun|]. split; [exact Hrun3|].
  exact Hder.
Defined.

(** BROADCAST with the caller's signal in the TypeScript source. *)
Lemma ts_broadcast_teardown_mirrors_setup_witness :
  exists td w1 t1 w3 t3,
    setup (TS.useEventer (Many [0; 1]) (Many ["click"; "hover"]%string)
                         sample_callback [] (custom_signal_options false))
          sample_world
    = (Normal td, w1, t1)
    /\ td w1 = (Normal tt, w3, t3)
    /\ deregistrations t3 = registrations t1.
Proof.
  destruct (ts_broadcast_teardown_mirrors_setup (Many [0; 1])
              (Many ["click"; "hover"]%string) sample_callback []
              (custom_signal_options false) sample_world (s := 7)
              eq_refl eq_refl)
    as (td & w1 & t1 & Hrun & Htd).
  destruct (Htd w1) as (w3 & t3 & Hrun3 & Hder & _).
  exists td, w1, t1, w3, t3. split; [exact Hrun|]. split; [exact Hrun3|].
  exact Hder.
Defined.

(** ** The object-spread helper of the published bundle *)

Module DistFacts.
Import Dist.

Lemma key_eqb_eq (k1 k2 : PropertyKey) : key_eqb k1 k2 = true <-> k1 = k2.
Proof.
  destruct k1, k2; simpl;
    rewrite ?String.eqb_eq, ?Nat.eqb_eq;
    split; intros H; try discriminate; congruence.
Qed.

Lemma key_eqb_refl (k : PropertyKey) : key_eqb k k = true.
Proof. now apply key_eqb_eq. Qed.

Lemma find_define_in (ps : list Property) (k k' : PropertyKey) (v : Value) :
  find (fun p => key_eqb (p_key p) k') (define_in ps k v)
  = if key_eqb k k' then Some (mkProperty k v true)
    else find (fun p => key_eqb (p_key p) k') ps.
Proof.
  induction ps as [|p ps IH]; simpl.
  - now destruct (key_eqb k k').
  - destruct (key_eqb (p_key p) k) eqn:Hpk; simpl.
    + apply key_eqb_eq in Hpk. rewrite Hpk.
      now destruct (key_eqb k k').
    + destruct (key_eqb (p_key p) k') eqn:Hpk'; [|exact IH].
      apply key_eqb_eq in Hpk'. subst k'.
      destruct (key_eqb k (p_key p)) eqn:Hkp; [|reflexivity].
      apply key_eqb_eq in Hkp. rewrite <- Hkp, key_eqb_refl in Hpk.
      discriminate.
Qed.

Lemma find_append_new (ps : list Property) (k k' : PropertyKey) (v : Value) :
  find (fun p => key_eqb (p_key p) k) ps = None ->
  find (fun p => key_eqb (p_key p) k') (ps ++ [mkProperty k v true])
  = if key_eqb k k' then Some (mkProperty k v true)
    else find (fun p => key_eqb (p_key p) k') ps.
Proof.
  induction ps as [|p ps IH]; simpl; intros Hnone.
  - now destruct (key_eqb k k').
  - destruct (key_eqb (p_key p) k) eqn:Hpk; [discriminate|].
    destruct (key_eqb (p_key p) k') eqn:Hpk'; [|exact (IH Hnone)].
    destruct (key_eqb k k') eqn:Hkk; [|reflexivity].
    apply key_eqb_eq in Hkk. subst k'. congruence.
Qed.

(** After [__defNormalProp(obj, k, v)] the object has the own enumerable
    property [k] with value [v]; every other key is as before. *)
Lemma get_own_defNormalProp (obj : JsObject) (k k' : PropertyKey) (v : Value) :
  get_own (__defNormalProp obj k v) k'
  = if key_eqb k k' then Some (mkProperty k v true) else get_own obj k'.
Proof.
  unfold __defNormalProp, get_own.
  destruct (key_in k obj) eqn:Hin; simpl.
  - apply find_define_in.
  - apply find_append_new.
    unfold key_in, __hasOwnProp, get_own in Hin.
    apply orb_false_iff in Hin as [Hown _].
    now destruct (find _ (own obj)).
Qed.

(** A guarded copy loop over a list of keys. *)
Lemma get_own_copy_loop (guard : PropertyKey -> bool) (b : JsObject)
      (ks : list PropertyKey) (a : JsObject) (k : PropertyKey) :
  get_own (fold_left (fun a prop =>
                        if guard prop then __defNormalProp a prop (get b prop)
                        else a) ks a) k
  = if existsb (fun prop => guard prop && key_eqb prop k) ks
    then Some (mkProperty k (get b k) true)
    else get_own a k.
Proof.
  revert a. induction ks as [|p ks IH]; intros a; simpl; [reflexivity|].
  rewrite IH. destruct (existsb _ ks); [now rewrite orb_true_r|].
  rewrite orb_false_r. destruct (guard p); simpl; [|reflexivity].
  rewrite get_own_defNormalProp.
  destruct (key_eqb p k) eqn:Hpk; [|reflexivity].
  apply key_eqb_eq in Hpk. now subst p.
Qed.

Lemma find_distinct (ps : list Property) (p : Property) :
  NoDup (map p_key ps) -> In p ps ->
  find (fun q => key_eqb (p_key q) (p_key p)) ps = Some p.
Proof.
  induction ps as [|q ps IH]; simpl; intros Hnd Hin; [contradiction|].
  inversion Hnd as [|x xs Hnotin Hnd']; subst.
  destruct Hin as [->|Hin]; [now rewrite key_eqb_refl|].
  destruct (key_eqb (p_key q) (p_key p)) eqn:Hq; [|exact (IH Hnd' Hin)].
  apply key_eqb_eq in Hq. exfalso. apply Hnotin. rewrite Hq.
  now apply in_map.
Qed.

Lemma get_own_in (o : JsObject) (k : PropertyKey) (p : Property) :
  get_own o k = Some p -> In p (own o) /\ p_key p = k.
Proof.
  unfold get_own. intros H. apply find_some in H as [Hin Hk].
  split; [exact Hin | now apply key_eqb_eq].
Qed.

(** The string-keyed pass copies exactly the own enumerable string keys. *)
Lemma for_in_pass (b : JsObject) (k : PropertyKey) :
  distinct_keys b ->
  existsb (fun prop => __hasOwnProp b prop && key_eqb prop k) (for_in_keys b)
  = is_string k && __propIsEnum b k.
Proof.
  intros Hnd. apply eq_iff_eq_true.
  rewrite existsb_exists, andb_true_iff. split.
  - intros [p [Hin Hp]]. apply andb_true_iff in Hp as [Hown Hpk].
    apply key_eqb_eq in Hpk. subst p.
    unfold for_in_keys in Hin. apply in_app_iff in Hin as [Hin|Hin].
    + apply in_map_iff in Hin as [q [Hq Hin]].
      apply filter_In in Hin as [Hin Hflags].
      apply andb_true_iff in Hflags as [Henum Hstr].
      rewrite Hq in Hstr. split; [exact Hstr|].
      unfold __propIsEnum, get_own. rewrite <- Hq.
      now rewrite (find_distinct _ _ Hnd Hin).
    + apply in_map_iff in Hin as [q [Hq Hin]].
      apply filter_In in Hin as [_ Hflags].
      apply andb_true_iff in Hflags as [_ Hshadow].
      rewrite Hq, Hown in Hshadow. discriminate.
  - intros [Hstr Henum]. exists k.
    unfold __propIsEnum in Henum. unfold __hasOwnProp.
    destruct (get_own b k) as [p|] eqn:Hget; [|discriminate].
    apply get_own_in in Hget as [Hin Hk]. split.
    + unfold for_in_keys. apply in_app_iff. left.
      apply in_map_iff. exists p. split; [exact Hk|].
      apply filter_In. split; [exact Hin|].
      now rewrite Henum, Hk, Hstr.
    + now rewrite key_eqb_refl.
Qed.

(** The symbol pass copies exactly the own enumerable symbol keys. *)
Lemma symbol_pass (b : JsObject) (k : PropertyKey) :
  existsb (fun prop => __propIsEnum b prop && key_eqb prop k)
          (__getOwnPropSymbols b)
  = negb (is_string k) && __propIsEnum b k.
Proof.
  apply eq_iff_eq_true.
  rewrite existsb_exists, andb_true_iff. split.
  - intros [p [Hin Hp]]. apply andb_true_iff in Hp as [Henum Hpk].
    apply key_eqb_eq in Hpk. subst p.
    apply filter_In in Hin as [_ Hsym]. auto.
  - intros [Hsym Henum]. exists k. split.
    + apply filter_In. split; [|exact Hsym].
      unfold __propIsEnum in Henum.
      destruct (get_own b k) as [p|] eqn:Hget; [|discriminate].
      apply get_own_in in Hget as [Hin Hk]. rewrite <- Hk. now apply in_map.
    + now rewrite Henum, key_eqb_refl.
Qed.

Lemma get_own_spreadValues (symbols : bool) (a b : JsObject)
      (k : PropertyKey) :
  distinct_keys b ->
  symbols = true \/ is_string k = true ->
  get_own (__spreadValues symbols a (Some b)) k
  = if __propIsEnum b k then Some (mkProperty k (get b k) true)
    else get_own a k.
Proof.
  intros Hnd Hk. unfold __spreadValues.
  assert (Hfirst :
            get_own (fold_left (fun a prop =>
                                  if __hasOwnProp b prop
                                  then __defNormalProp a prop (get b prop)
                                  else a) (for_in_keys b) a) k
            = if is_string k && __propIsEnum b k
              then Some (mkProperty k (get b k) true) else get_own a k).
  { rewrite (get_own_copy_loop (__hasOwnProp b)), for_in_pass by exact Hnd.
    reflexivity. }
  destruct symbols.
  - rewrite (get_own_copy_loop (__propIsEnum b)), symbol_pass, Hfirst.
    destruct (is_string k), (__propIsEnum b k); reflexivity.
  - destruct Hk as [Hk|Hk]; [discriminate|].
    rewrite Hfirst, Hk. reflexivity.
Qed.

(** X15. [__spreadValues(a, b)] is a right-biased merge: in the result, a
    key that is an own enumerable property of [b] is an own enumerable
    property holding [b]'s value, and every other key is as in [a]. Symbol
    keys are copied when the engine has [Object.getOwnPropertySymbols];
    string keys always. A falsy [b] leaves [a] as it is. *)
Theorem spreadValues_right_biased (symbols : bool) (a b : JsObject)
        (k : PropertyKey) :
  distinct_keys b ->
  symbols = true \/ is_string k = true ->
  get_own (__spreadValues symbols a (Some b)) k
  = (if __propIsEnum b k then Some (mkProperty k (get b k) true)
     else get_own a k)
  /\ get (__spreadValues symbols a (Some b)) k
     = (if __propIsEnum b k then get b k else get a k)
  /\ __spreadValues symbols a None = a.
Proof.
  intros Hnd Hk.
  pose proof (@get_own_spreadValues symbols a b k Hnd Hk) as Hown.
  split; [exact Hown|]. split; [|destruct symbols; reflexivity].
  unfold get at 1. rewrite Hown. unfold get at 2.
  destruct (__propIsEnum b k); reflexivity.
Qed.

(** [{ signal: 100 }] spread with [{ capture: true, signal: 7 }]. *)
Lemma spreadValues_right_biased_witness :
  get (__spreadValues true (signal_literal 100)
         (Some (mkObject
                  [mkProperty (StringKey "capture") (BoolValue true) true;
                   mkProperty (StringKey "signal") (SignalValue 7) true]
                  Object_prototype)))
      (StringKey "signal")
  = SignalValue 7.
Proof.
  destruct (@spreadValues_right_biased true (signal_literal 100)
              (mkObject
                 [mkProperty (StringKey "capture") (BoolValue true) true;
                  mkProperty (StringKey "signal") (SignalValue 7) true]
                 Object_prototype)
              (StringKey "signal"))
    as (_ & Hget & _).
  - repeat constructor; simpl; intuition discriminate.
  - now left.
  - exact Hget.
Defined.

(** X16. The bundle merges the listener options as the source's object
    spread does: for an options bag with distinct, enumerable own properties
    whose [signal], if present, is an abort signal or [undefined], the
    members of [__spreadValues({ signal: controller.signal },
    listenerOptions)] are [merge_options] of the controller's signal and the
    members of the bag; in particular a [signal] key holding [undefined]
    replaces the controller's signal in the bundle as in the source. *)
Theorem bundle_spread_matches_source (symbols : bool) (c : AbortSignal)
        (b : JsObject) :
  distinct_keys b ->
  (forall p, In p (own b) -> p_enumerable p = true) ->
  (forall p, In p (own b) -> p_key p = StringKey "signal" ->
             p_value p = Undefined \/ exists s, p_value p = SignalValue s) ->
  read_options (__spreadValues symbols (signal_literal c) (Some b))
  = merge_options c (read_options b).
Proof.
  intros Hnd Henum Htyped.
  assert (Hown : forall name,
             get_own (__spreadValues symbols (signal_literal c) (Some b))
                     (StringKey name)
             = match get_own b (StringKey name) with
               | Some p => Some (mkProperty (StringKey name) (p_value p) true)
               | None => get_own (signal_literal c) (StringKey name)
               end).
  { intros name.
    rewrite get_own_spreadValues by (auto; now right).
    unfold __propIsEnum, get.
    destruct (get_own b (StringKey name)) as [p|] eqn:Hp; [|reflexivity].
    apply get_own_in in Hp as [Hin _]. now rewrite (Henum p Hin). }
  assert (Hbool : forall name,
             name <> "signal"%string ->
             read_bool (__spreadValues symbols (signal_literal c) (Some b)) name
             = read_bool b name).
  { intros name Hname. unfold read_bool, get. rewrite Hown.
    destruct (get_own b (StringKey name)); [reflexivity|].
    unfold get_own, signal_literal. cbn [own find p_key key_eqb].
    destruct (String.eqb_spec "signal" name) as [Heq|_]; [|reflexivity].
    exfalso. apply Hname. now symmetry. }
  assert (Hsignal :
            read_signal (__spreadValues symbols (signal_literal c) (Some b))
            = match read_signal b with
              | Missing => Holds c
              | Undef => Undef
              | Holds s => Holds s
              end).
  { unfold read_signal. rewrite Hown.
    destruct (get_own b (StringKey "signal")) as [p|] eqn:Hp.
    - apply get_own_in in Hp as [Hin Hk]. cbn [p_value].
      destruct (Htyped p Hin Hk) as [Hu|[s Hs]].
      + now rewrite Hu.
      + now rewrite Hs.
    - reflexivity. }
  unfold read_options, merge_options.
  cbn [capture once passive signal].
  rewrite !Hbool by discriminate. rewrite Hsignal. reflexivity.
Qed.

(** The bag [{ once: true, signal: undefined }]: the controller's signal is
    replaced by [undefined]. *)
Lemma bundle_spread_matches_source_witness :
  read_options
    (__spreadValues true (signal_literal 100)
       (Some (mkObject [mkProperty (StringKey "once") (BoolValue true) true;
                        mkProperty (StringKey "signal") Undefined true]
                       Object_prototype)))
  = mkListenerOptions None (Some true) None Undef.
Proof.
  rewrite (@bundle_spread_matches_source true 100
             (mkObject [mkProperty (StringKey "once") (BoolValue true) true;
                        mkProperty (StringKey "signal") Undefined true]
                       Object_prototype)).
  - reflexivity.
  - repeat constructor; simpl; intuition discriminate.
  - intros p [<-|[<-|[]]]; reflexivity.
  - intros p [<-|[<-|[]]] Hk; [discriminate Hk | now left].
Defined.

End DistFacts.
